(** * A shallow embedding of [github_backup.py]

    The synchronisation engine of the backup script: [run_git_command]
    (a git invocation with bounded retries and exponential backoff),
    [backup_repository] (clone, or pull with delete-and-re-clone recovery)
    and the aggregation loop of [main].

    The outside world is modelled by two functions of the history of
    effects performed so far (the trace): [proc] gives the result of
    spawning a command, [path_exists] the answer of [os.path.exists].
    Both may depend on everything that happened before (earlier spawns,
    removals, sleeps), so they cover any behaviour of git and of the disk.
    The code's effects are recorded in the trace, in chronological order. *)

From Stdlib Require Import Ascii String List ZArith QArith Bool Lia.
Import ListNotations.
Open Scope string_scope.
Open Scope Z_scope.

(** ** Strings: [in], [str.split('/')[-1]] and [os.path.join] *)

(** [pat in s] on Python strings: [pat] occurs in [s] at some position. *)
Fixpoint contains (pat s : string) : bool :=
  prefix pat s ||
  match s with
  | EmptyString => false
  | String _ s' => contains pat s'
  end.

(** [s.split('/')[-1]]: the text after the last ['/'] (all of [s] when
    there is none). [acc] holds the current component, reversed. *)
Fixpoint last_component_acc (acc : list Ascii.ascii) (s : string) : string :=
  match s with
  | EmptyString => string_of_list_ascii (rev acc)
  | String c s' =>
      if Ascii.eqb c "/"%char then last_component_acc [] s'
      else last_component_acc (c :: acc) s'
  end.

Definition last_component (s : string) : string := last_component_acc [] s.

(** [posixpath.join(a, b)] for two components. *)
Definition path_join (a b : string) : string :=
  if prefix "/" b then b
  else if String.eqb a "" then a ++ b
  else if String.eqb (substring (String.length a - 1) 1 a) "/" then a ++ b
  else a ++ "/" ++ b.

(** ** Effects *)

Definition command := list string.

(** The result of [subprocess.run(..., check=True)]: normal completion with
    its stdout, [CalledProcessError] with its stderr, or another exception
    (e.g. [FileNotFoundError] when git is missing) with [str(e)]. *)
Inductive proc_result :=
| ProcOk (stdout : string)
| ProcErr (stderr : string)
| ProcExc (msg : string).

(** A repository descriptor, as built by [get_list_repos]. *)
Record repo := mk_repo { name : string; clone_url : string; size : Z }.

(** The summary dictionary written to [backup_metadata.json]. *)
Record metadata := mk_metadata {
  last_backup : string;
  successful_repos : list string;
  failed_repos : list (string * string);
  total_repos : Z;
  success_count : Z;
  fail_count : Z }.

Inductive event :=
| Spawn (cmd : command)            (** one child process *)
| Sleep (seconds : Z)              (** [time.sleep] *)
| Rmtree (path : string)           (** [shutil.rmtree(path, ignore_errors=True)] *)
| Persist (path : string) (m : metadata). (** [json.dump] to a file *)

Definition trace := list event.

(** A state monad over the trace. *)
Definition M (A : Type) := trace -> A * trace.

Definition ret {A} (a : A) : M A := fun tr => (a, tr).
Definition bind {A B} (m : M A) (k : A -> M B) : M B :=
  fun tr => let (a, tr') := m tr in k a tr'.

Notation "x <- m ;; k" := (bind m (fun x => k))
  (at level 61, m at next level, right associativity).
Notation "m ;;; k" := (bind m (fun _ => k))
  (at level 61, right associativity).

Definition emit (e : event) : M unit := fun tr => (tt, (tr ++ [e])%list).

Section Program.

(** The world: results of spawned processes and existence of paths,
    as functions of the history. *)
Variable proc : trace -> command -> proc_result.
Variable path_exists : trace -> string -> bool.

Definition spawn (cmd : command) : M proc_result :=
  fun tr => (proc tr cmd, (tr ++ [Spawn cmd])%list).

Definition exists_path (p : string) : M bool :=
  fun tr => (path_exists tr p, tr).

(** ** [run_git_command] *)

Definition transient_errors : list string :=
  [ "unable to access";
    "Couldn't connect to server";
    "RPC failed";
    "early EOF";
    "index-pack failed" ].

(** [any(err in e.stderr for err in [...])] *)
Definition is_transient (stderr : string) : bool :=
  existsb (fun err => contains err stderr) transient_errors.

(** The body of [for attempt in range(retries)]: [n] iterations remain,
    the current one is [attempt], and [delay] is the current wait. *)
Fixpoint run_git_loop (cmd : command) (retries : Z) (n : nat)
    (attempt delay : Z) : M (bool * string) :=
  match n with
  | O => ret (false, "Max retries reached")
  | S n' =>
      r <- spawn cmd ;;
      match r with
      | ProcOk out => ret (true, out)
      | ProcErr err =>
          if is_transient err then
            if attempt <? retries - 1 then
              emit (Sleep delay) ;;;
              run_git_loop cmd retries n' (attempt + 1) (delay * 2)
            else ret (false, err)
          else ret (false, err)
      | ProcExc msg => ret (false, msg)
      end
  end.

Definition run_git_command (cmd : command) (retries delay : Z)
  : M (bool * string) :=
  run_git_loop cmd retries (Z.to_nat retries) 0 delay.

(** The defaults [retries=3, delay=5], used by every caller. *)
Definition run_git_command_default (cmd : command) : M (bool * string) :=
  run_git_command cmd 3 5.

(** ** [backup_repository] *)

Definition repo_path (backup_dir repo_url : string) : string :=
  path_join backup_dir (last_component repo_url).

Definition clone_command (repo_url path : string) : command :=
  ["git"; "clone"; "--depth"; "1"; repo_url; path].

Definition pull_command (path : string) : command :=
  ["git"; "-C"; path; "pull"].

Definition backup_repository (repo_url backup_dir : string)
  : M (bool * string) :=
  let path := repo_path backup_dir repo_url in
  let clone := clone_command repo_url path in
  ex <- exists_path path ;;
  if ex then
    r <- run_git_command_default (pull_command path) ;;
    if fst r then ret (true, "Updated successfully")
    else
      emit (Rmtree path) ;;;
      r' <- run_git_command_default clone ;;
      if fst r' then ret (true, "Re-cloned successfully")
      else ret (false, "Failed to re-clone: " ++ snd r')
  else
    r <- run_git_command_default clone ;;
    if fst r then ret (true, "Cloned successfully")
    else ret (false, "Failed to clone: " ++ snd r).

(** ** [configure_git] *)

Definition git_configs : list (string * string) :=
  [ ("http.postBuffer", "524288000");
    ("core.compression", "0");
    ("http.lowSpeedLimit", "1000");
    ("http.lowSpeedTime", "60");
    ("gc.auto", "0");
    ("core.preloadIndex", "true");
    ("protocol.version", "2");
    ("core.packedGitLimit", "512m");
    ("core.packedGitWindowSize", "512m");
    ("pack.windowMemory", "512m");
    ("pack.packSizeLimit", "512m");
    ("pack.threads", "1") ].

Definition config_command (kv : string * string) : command :=
  ["git"; "config"; "--global"; fst kv; snd kv].

(** Each setting is one [subprocess.run(..., check=True)]; a
    [CalledProcessError] is caught and only printed, any other exception
    escapes [configure_git] (and [main]): the result is [false] then. *)
Fixpoint configure_git_loop (configs : list (string * string)) : M bool :=
  match configs with
  | [] => ret true
  | kv :: rest =>
      r <- spawn (config_command kv) ;;
      match r with
      | ProcOk _ | ProcErr _ => configure_git_loop rest
      | ProcExc _ => ret false
      end
  end.

Definition configure_git : M bool := configure_git_loop git_configs.

(** ** [main] *)

(** [urllib.request.ProxyHandler({}).proxies]: the handler keeps the dict it
    is given, here the empty one. *)
Definition proxy_handler_proxies : list (string * string) := [].

(** The proxy loop; it sits in a [try ... except Exception], so an
    exception only ends the loop. *)
Fixpoint configure_proxy_loop (proxies : list (string * string)) : M unit :=
  match proxies with
  | [] => ret tt
  | (protocol, proxy) :: rest =>
      if String.eqb protocol "http" || String.eqb protocol "https" then
        r <- spawn ["git"; "config"; "--global"; protocol ++ ".proxy"; proxy] ;;
        match r with
        | ProcExc _ => ret tt
        | _ => configure_proxy_loop rest
        end
      else configure_proxy_loop rest
  end.

(** [for repo in repos:] with the two accumulating lists. *)
Fixpoint backup_loop (backup_dir : string) (repos : list repo)
    (successful : list string) (failed : list (string * string))
  : M (list string * list (string * string)) :=
  match repos with
  | [] => ret (successful, failed)
  | r :: rest =>
      res <- backup_repository (clone_url r) backup_dir ;;
      if fst res then
        backup_loop backup_dir rest (successful ++ [name r])%list failed
      else
        backup_loop backup_dir rest successful (failed ++ [(name r, snd res)])%list
  end.

Definition metadata_file (backup_dir : string) : string :=
  path_join backup_dir "backup_metadata.json".

(** [main] after [get_list_repos] has produced [repos] (the discovery and
    the confirmation prompt are external); [now] is [datetime.now().isoformat()].
    [None] means an exception escaped before the summary was written. *)
Definition main (backup_dir : string) (repos : list repo) (now : string)
  : M (option metadata) :=
  ok <- configure_git ;;
  if negb ok then ret None
  else
    configure_proxy_loop proxy_handler_proxies ;;;
    lists <- (match repos with
              | [] => ret ([], [])
              | _ => backup_loop backup_dir repos [] []
              end) ;;
    let (successful, failed) := lists in
    let m := mk_metadata now successful failed
               (Z.of_nat (length repos))
               (Z.of_nat (length successful))
               (Z.of_nat (length failed)) in
    emit (Persist (metadata_file backup_dir) m) ;;;
    ret (Some m).

End Program.

(** ** Concrete worlds *)

(** Every process succeeds; nothing exists on disk. *)
Definition world_ok (_ : trace) (_ : command) : proc_result := ProcOk "".
Definition disk_empty (_ : trace) (_ : string) : bool := false.

(** Every process fails with a transient transfer error. *)
Definition world_eof (_ : trace) (_ : command) : proc_result :=
  ProcErr "fatal: early EOF".

Definition is_pull (cmd : command) : bool :=
  match cmd with
  | ["git"; "-C"; _; "pull"] => true
  | _ => false
  end.

(** Pulls fail with a local, non-transient error; clones fail too. *)
Definition world_pull_and_clone_fail (_ : trace) (cmd : command) : proc_result :=
  if is_pull cmd then ProcErr "error: Your local changes would be overwritten by merge"
  else ProcErr "fatal: repository not found".

(** Pulls fail (non-transient); clones succeed. *)
Definition world_pull_fails (_ : trace) (cmd : command) : proc_result :=
  if is_pull cmd then ProcErr "error: Your local changes would be overwritten by merge"
  else ProcOk "".

(** Only the given path exists; no [.git] directory inside it. *)
Definition disk_only (p : string) (_ : trace) (q : string) : bool :=
  String.eqb p q.

(** ** Views of a trace used in the statements *)

(** The effects of [n] attempts of [cmd] that all fail transiently with the
    first wait [d]: attempt, wait [d], attempt, wait [2*d], ..., attempt. *)
Fixpoint transient_schedule (cmd : command) (n : nat) (d : Z) : trace :=
  match n with
  | O => []
  | S O => [Spawn cmd]
  | S n' => Spawn cmd :: Sleep d :: transient_schedule cmd n' (d * 2)
  end.

(** The effects before attempt [i] (counted from 0) when each earlier attempt
    failed transiently and was followed by its wait, the first wait being
    [d]: attempt, wait [d], attempt, wait [2*d], ..., wait. *)
Fixpoint retry_prefix (cmd : command) (i : nat) (d : Z) : trace :=
  match i with
  | O => []
  | S i' => Spawn cmd :: Sleep d :: retry_prefix cmd i' (d * 2)
  end.

Fixpoint spawn_count (t : trace) : nat :=
  match t with
  | [] => O
  | Spawn _ :: t' => S (spawn_count t')
  | _ :: t' => spawn_count t'
  end.

Fixpoint sleeps (t : trace) : list Z :=
  match t with
  | [] => []
  | Sleep d :: t' => d :: sleeps t'
  | _ :: t' => sleeps t'
  end.

Definition is_rmtree (e : event) : bool :=
  match e with
  | Rmtree _ => true
  | _ => false
  end.

(** Every [git] invocation raises [FileNotFoundError]: git is not installed. *)
Definition world_nogit (_ : trace) (_ : command) : proc_result :=
  ProcExc "[Errno 2] No such file or directory: 'git'".

(** The first process fails with a transient error, every later one with a
    fatal error. *)
Definition world_eof_then_fatal (h : trace) (_ : command) : proc_result :=
  if Nat.eqb (spawn_count h) 0 then ProcErr "fatal: early EOF"
  else ProcErr "fatal: repository not found".

(** ** Python string helpers used by [get_list_repos] *)

(** [str.isspace] on a one-character string, characters read as Latin-1
    code points. *)
Definition py_isspace (c : ascii) : bool :=
  let n := nat_of_ascii c in
  (Nat.leb 9 n && Nat.leb n 13) || (Nat.leb 28 n && Nat.leb n 32) ||
  Nat.eqb n 133 || Nat.eqb n 160.

Fixpoint lstrip_by (f : ascii -> bool) (l : list ascii) : list ascii :=
  match l with
  | [] => []
  | c :: l' => if f c then lstrip_by f l' else l
  end.

(** [s.strip()] when [f] is [py_isspace], [s.strip('/')] when [f] tests
    for ['/']: drop the matching characters at both ends. *)
Definition strip_by (f : ascii -> bool) (s : string) : string :=
  string_of_list_ascii
    (rev (lstrip_by f (rev (lstrip_by f (list_ascii_of_string s))))).

(** [str.lower] on Latin-1 characters. *)
Definition py_lower_char (c : ascii) : ascii :=
  let n := nat_of_ascii c in
  if (Nat.leb 65 n && Nat.leb n 90) ||
     (Nat.leb 192 n && Nat.leb n 222 && negb (Nat.eqb n 215))
  then ascii_of_nat (n + 32) else c.

Definition py_lower (s : string) : string :=
  string_of_list_ascii (map py_lower_char (list_ascii_of_string s)).

(** [s.split('/')]: all the components, in order (at least one). *)
Fixpoint split_slash_acc (acc : list ascii) (s : string) : list string :=
  match s with
  | EmptyString => [string_of_list_ascii (rev acc)]
  | String c s' =>
      if Ascii.eqb c "/"%char
      then string_of_list_ascii (rev acc) :: split_slash_acc [] s'
      else split_slash_acc (c :: acc) s'
  end.

Definition split_slash (s : string) : list string := split_slash_acc [] s.

(** ** [get_github_token] *)

(** [os.getenv('GITHUB_TOKEN')] is [env]; [sys.exit(1)] unless it is a
    non-empty string. *)
Definition get_github_token (env : option string) : option string :=
  match env with
  | None | Some EmptyString => None
  | Some t => Some t
  end.

(** ** The confirmation prompt of [get_list_repos] *)

(** [input(...).strip().lower()]. *)
Definition normalise_answer (line : string) : string :=
  py_lower (strip_by py_isspace line).

(** The [while True] loop. [inputs] are the lines still to be read from
    standard input; once they are exhausted every [input()] raises
    [EOFError], whose handler sets [proceed = 'n'] but does not leave the
    loop. [fuel] bounds the number of iterations: [None] means the loop has
    not ended within [fuel] iterations. *)
Fixpoint prompt_loop (fuel : nat) (inputs : list string) : option string :=
  match fuel with
  | O => None
  | S fuel' =>
      match inputs with
      | [] => prompt_loop fuel' []
      | line :: rest =>
          let proceed := normalise_answer line in
          if String.eqb proceed "y" || String.eqb proceed "n" then Some proceed
          else prompt_loop fuel' rest
      end
  end.

(** ** [get_list_repos] *)

(** An [<a>] tag, as far as the code reads it: its [href] attribute. A
    found tag is always truthy, so [if not repo_link] only catches a
    missing [<a>]. *)
Record a_tag := mk_a_tag { a_href : option string }.

(** One [div.d-inline-block.mb-1] of the list page, seen through
    [item.find('h3').find('a')]: [None] when there is no [<h3>],
    [Some None] when the [<h3>] has no [<a>]. *)
Definition list_item := option (option a_tag).

(** The fields of [repo_response.json()] that the code reads. *)
Record api_details := mk_api_details {
  d_full_name : option string;
  d_name : option string;
  d_clone_url : option string;
  d_size : option Z }.

(** A response: status code, [text], and [json()] ([None]: not JSON). *)
Record response := mk_response {
  status_code : Z;
  resp_text : string;
  resp_json : option api_details }.

Inductive net_event :=
| Get (url : string)        (** [session.get(url, ...)] *)
| Wait (seconds : Z).       (** [time.sleep] *)

Definition net := list net_event.

(** How one item ends: skipped by [continue], appended, or an exception
    caught by the inner [except Exception]. *)
Inductive item_outcome :=
| ISkip
| IRepo (r : repo)
| IRaise.

Definition is_collected (o : item_outcome) : bool :=
  match o with
  | IRepo _ => true
  | _ => false
  end.

(** The result of [get_list_repos]: [sys.exit(1)], an exception escaping
    it, a confirmation loop that does not end, or the returned list. *)
Inductive list_result :=
| LExit
| LCrash
| LHang
| LRepos (repos : list repo).

Definition is_http_error (status : Z) : bool := (400 <=? status) && (status <? 600).

Section Discovery.

(** [session.get] as a function of the earlier requests: [None] when it
    raises a [RequestException]. *)
Variable http : net -> string -> option response.

Definition http_get (url : string) (st : net) : option response * net :=
  (http st url, (st ++ [Get url])%list).

(** The body of [for item in repo_items], up to its [except] clause; the
    boolean says whether [owner] was assigned during this iteration. *)
Definition process_item (it : list_item) (st : net) : (item_outcome * bool) * net :=
  match it with
  | None => ((IRaise, false), st)
  | Some None => ((ISkip, false), st)
  | Some (Some a) =>
      let repo_path := strip_by (fun c => Ascii.eqb c "/"%char)
                         (match a_href a with Some h => h | None => "" end) in
      if String.eqb repo_path "" then ((ISkip, false), st)
      else
        match split_slash repo_path with
        | [owner; repo_name] =>
            let api_url := "https://api.github.com/repos/" ++ owner ++ "/" ++ repo_name in
            let (r1, st1) := http_get api_url st in
            match r1 with
            | None => ((IRaise, true), st1)
            | Some resp =>
                let (r2, st2) :=
                  if (status_code resp =? 403) &&
                     contains "rate limit exceeded" (resp_text resp)
                  then http_get api_url (st1 ++ [Wait 60])%list
                  else (Some resp, st1) in
                match r2 with
                | None => ((IRaise, true), st2)
                | Some resp2 =>
                    if is_http_error (status_code resp2) then ((IRaise, true), st2)
                    else
                      match resp_json resp2 with
                      | None => ((IRaise, true), st2)
                      | Some d =>
                          let size_bytes :=
                            (match d_size d with Some k => k | None => 0 end) * 1024 in
                          match d_full_name d, d_name d, d_clone_url d with
                          | Some _, Some n, Some u =>
                              ((IRepo (mk_repo n u size_bytes), true),
                               (st2 ++ [Wait 1])%list)
                          | _, _, _ => ((IRaise, true), st2)
                          end
                      end
                end
            end
        | _ => ((IRaise, false), st)
        end
  end.

(** The loop; [owner_bound] says whether [owner] has been assigned in an
    earlier iteration. The [except] handler prints [owner]: when it is
    unbound this raises [NameError], which leaves the loop and
    [get_list_repos] ([None]). *)
Fixpoint items_loop (owner_bound : bool) (items : list list_item) (acc : list repo)
    (st : net) : option (list repo) * net :=
  match items with
  | [] => (Some acc, st)
  | it :: rest =>
      let '((out, assigned), st1) := process_item it st in
      let bound := owner_bound || assigned in
      match out with
      | ISkip => items_loop bound rest acc st1
      | IRepo r => items_loop bound rest (acc ++ [r])%list st1
      | IRaise => if bound then items_loop bound rest acc st1 else (None, st1)
      end
  end.

(** [get_list_repos(username, list_name)]: [token_env] is the
    [GITHUB_TOKEN] variable, [parse] the BeautifulSoup search for the
    repository items in the page text, [inputs] the lines of standard input
    and [fuel] the bound on the confirmation loop. *)
Definition get_list_repos (username list_name : string) (token_env : option string)
    (parse : string -> list list_item) (inputs : list string) (fuel : nat)
    (st : net) : list_result * net :=
  match get_github_token token_env with
  | None => (LExit, st)
  | Some _ =>
      let list_url := "https://github.com/stars/" ++ username ++ "/lists/" ++ list_name in
      let (r, st1) := http_get list_url st in
      match r with
      | None => (LRepos [], st1)
      | Some resp =>
          if is_http_error (status_code resp) then (LRepos [], st1)
          else
            match parse (resp_text resp) with
            | [] => (LRepos [], st1)
            | items =>
                let (res, st2) := items_loop false items [] st1 in
                match res with
                | None => (LCrash, st2)
                | Some detailed =>
                    match prompt_loop fuel inputs with
                    | None => (LHang, st2)
                    | Some proceed =>
                        if String.eqb proceed "y" then (LRepos detailed, st2)
                        else (LRepos [], st2)
                    end
                end
            end
      end
  end.

End Discovery.

(** A descriptor built from a successful answer of the GitHub API at
    [https://api.github.com/repos/<owner>/<repo>]: its name and clone URL are
    the answer's [name] and [clone_url], its size the answer's [size] (0
    when absent) times 1024. *)
Definition api_descriptor (http : net -> string -> option response) (r : repo) : Prop :=
  exists h owner repo_name resp d,
    http h ("https://api.github.com/repos/" ++ owner ++ "/" ++ repo_name) = Some resp /\
    is_http_error (status_code resp) = false /\
    resp_json resp = Some d /\
    d_full_name d <> None /\
    d_name d = Some (name r) /\
    d_clone_url d = Some (clone_url r) /\
    size r = (match d_size d with Some k => k | None => 0 end) * 1024.

(** ** The unit chosen by [format_size] *)

(** The loop of [format_size] on the value [v] (a rational standing for the
    float: dividing by [1024.0] is exact in binary floating point), giving
    the unit printed. *)
Fixpoint format_size_unit_loop (units : list string) (v : Q) : string :=
  match units with
  | [] => "TB"
  | u :: rest =>
      if negb (Qle_bool (1024 # 1) v) then u else format_size_unit_loop rest (v / (1024 # 1))
  end.

Definition format_size_unit (size_bytes : Z) : string :=
  format_size_unit_loop ["B"; "KB"; "MB"; "GB"] (size_bytes # 1).

(** A GitHub API that answers every request with the same repository. *)
Definition http_one_repo (_ : net) (_ : string) : option response :=
  Some (mk_response 200 ""
          (Some (mk_api_details (Some "o/r") (Some "r")
                                (Some "https://github.com/o/r.git") (Some 5)))).

(** A list page holding one well-formed and one malformed item. *)
Definition parse_two (_ : string) : list list_item :=
  [Some (Some (mk_a_tag (Some "/o/r"))); Some (Some (mk_a_tag (Some "/x/y/z")))].

(** Every request raises a [RequestException]. *)
Definition http_down (_ : net) (_ : string) : option response := None.

(** A list page whose first item links to a path with three components. *)
Definition parse_malformed_first (_ : string) : list list_item :=
  [Some (Some (mk_a_tag (Some "/x/y/z"))); Some (Some (mk_a_tag (Some "/o/r")))].

Example ex_last : last_component "https://github.com/jing8263xiao/git_backup.git" = "git_backup.git".
Proof. reflexivity. Qed.
Example ex_join : repo_path "/b" "https://x/a.git" = "/b/a.git".
Proof. reflexivity. Qed.
Example ex_tr : is_transient "fatal: early EOF" = true /\ is_transient "fatal: repository not found" = false.
Proof. split; reflexivity. Qed.
Example ex_rgc : run_git_command world_eof ["git"] 3 5 [] =
  ((false, "fatal: early EOF"), [Spawn ["git"]; Sleep 5; Spawn ["git"]; Sleep 10; Spawn ["git"]]).
Proof. reflexivity. Qed.

(** ** General facts *)

Lemma app_string_assoc (a b c : string) : (a ++ b) ++ c = a ++ (b ++ c).
Proof. induction a as [|x a IH]; simpl; [reflexivity | now rewrite IH]. Qed.

Section Facts.

Variable proc : trace -> command -> proc_result.
Variable path_exists : trace -> string -> bool.

Lemma run_git_loop_extends cmd retries n attempt delay tr :
  exists new,
    snd (run_git_loop proc cmd retries n attempt delay tr) = (tr ++ new)%list /\
    forallb (fun e => negb (is_rmtree e)) new = true.
Proof.
  revert attempt delay tr.
  induction n as [|n IH]; intros attempt delay tr; simpl.
  - exists []. now rewrite app_nil_r.
  - unfold bind, spawn.
    destruct (proc tr cmd) as [out|err|msg]; simpl.
    + exists [Spawn cmd]. auto.
    + destruct (is_transient err); [destruct (attempt <? retries - 1)|].
      * unfold emit; simpl.
        destruct (IH (attempt + 1) (delay * 2) ((tr ++ [Spawn cmd]) ++ [Sleep delay])%list)
          as [new [Hn Hf]].
        rewrite Hn. exists (Spawn cmd :: Sleep delay :: new).
        split; [now rewrite <- !app_assoc | exact Hf].
      * exists [Spawn cmd]. auto.
      * exists [Spawn cmd]. auto.
    + exists [Spawn cmd]. auto.
Qed.

Lemma run_git_loop_spawns_first cmd retries n attempt delay tr :
  exists new,
    snd (run_git_loop proc cmd retries (S n) attempt delay tr)
    = (tr ++ Spawn cmd :: new)%list.
Proof.
  simpl. unfold bind, spawn.
  destruct (proc tr cmd) as [out|err|msg]; simpl.
  - exists []. reflexivity.
  - destruct (is_transient err); [destruct (attempt <? retries - 1)|].
    + unfold emit; simpl.
      destruct (run_git_loop_extends cmd retries n (attempt + 1) (delay * 2)
                  ((tr ++ [Spawn cmd]) ++ [Sleep delay])%list) as [new [Hn _]].
      rewrite Hn. exists (Sleep delay :: new). now rewrite <- !app_assoc.
    + exists []. reflexivity.
    + exists []. reflexivity.
  - exists []. reflexivity.
Qed.

Lemma run_git_loop_all_transient cmd retries n attempt delay tr :
  (forall h, exists err, proc h cmd = ProcErr err /\ is_transient err = true) ->
  (1 <= n)%nat ->
  attempt + Z.of_nat n = retries ->
  fst (fst (run_git_loop proc cmd retries n attempt delay tr)) = false /\
  snd (run_git_loop proc cmd retries n attempt delay tr)
  = (tr ++ transient_schedule cmd n delay)%list.
Proof.
  intros Hall. revert attempt delay tr.
  induction n as [|n IH]; intros attempt delay tr Hn Ha; [lia|].
  simpl. unfold bind, spawn.
  destruct (Hall tr) as [err [Hp Ht]]. rewrite Hp, Ht.
  destruct n as [|n'].
  - replace (attempt <? retries - 1) with false by (symmetry; apply Z.ltb_ge; lia).
    simpl. auto.
  - replace (attempt <? retries - 1) with true by (symmetry; apply Z.ltb_lt; lia).
    unfold emit; cbn -[run_git_loop].
    destruct (IH (attempt + 1) (delay * 2) ((tr ++ [Spawn cmd]) ++ [Sleep delay])%list)
      as [IH1 IH2]; [lia | lia |].
    split; [exact IH1|]. rewrite IH2. now rewrite <- !app_assoc.
Qed.

Lemma run_git_loop_after_retries cmd retries j : forall n attempt delay tr,
  (j < n)%nat ->
  attempt + Z.of_nat j < retries ->
  (forall i, (i < j)%nat ->
     exists e, proc (tr ++ retry_prefix cmd i delay)%list cmd = ProcErr e /\
               is_transient e = true) ->
  run_git_loop proc cmd retries n attempt delay tr
  = run_git_loop proc cmd retries (n - j) (attempt + Z.of_nat j)
                 (delay * 2 ^ Z.of_nat j) (tr ++ retry_prefix cmd j delay)%list.
Proof.
  induction j as [|j IH]; intros n attempt delay tr Hn Ha Hall.
  - simpl. rewrite Nat.sub_0_r, Z.add_0_r, Z.mul_1_r, app_nil_r. reflexivity.
  - destruct n as [|n]; [lia|].
    destruct (Hall 0%nat) as [e [He Ht]]; [lia|]. simpl in He. rewrite app_nil_r in He.
    simpl. unfold bind, spawn. rewrite He, Ht.
    replace (attempt <? retries - 1) with true by (symmetry; apply Z.ltb_lt; lia).
    unfold emit; cbn -[run_git_loop].
    rewrite (IH n (attempt + 1) (delay * 2)); [| lia | lia |].
    + replace (attempt + 1 + Z.of_nat j) with (attempt + Z.of_nat (S j)) by lia.
      replace (delay * 2 * 2 ^ Z.of_nat j) with (delay * 2 ^ Z.of_nat (S j))
        by (rewrite Nat2Z.inj_succ, Z.pow_succ_r by lia; ring).
      now rewrite <- !app_assoc.
    + intros i Hi. destruct (Hall (S i)) as [e' [He' Ht']]; [lia|].
      exists e'. split; [|exact Ht']. rewrite <- He'. simpl. now rewrite <- !app_assoc.
Qed.

End Facts.

Lemma transient_schedule_spawns cmd n d :
  spawn_count (transient_schedule cmd n d) = n.
Proof.
  revert d. induction n as [|[|n] IH]; intros d; [reflexivity|reflexivity|].
  change (S (spawn_count (transient_schedule cmd (S n) (d * 2))) = S (S n)).
  now rewrite IH.
Qed.

Lemma transient_schedule_sleeps cmd n d :
  sleeps (transient_schedule cmd (S n) d)
  = map (fun k => d * 2 ^ Z.of_nat k) (seq 0 n).
Proof.
  revert d. induction n as [|n IH]; intros d; [reflexivity|].
  change (d :: sleeps (transient_schedule cmd (S n) (d * 2))
          = map (fun k => d * 2 ^ Z.of_nat k) (seq 0 (S n))).
  rewrite IH. simpl. rewrite Z.mul_1_r. f_equal.
  rewrite <- seq_shift, map_map. apply map_ext. intros k.
  rewrite Nat2Z.inj_succ, Z.pow_succ_r by lia. ring.
Qed.

(** ** Facts about [backup_repository] *)

Section BackupFacts.

Variable proc : trace -> command -> proc_result.
Variable path_exists : trace -> string -> bool.

Lemma run_git_command_default_extends cmd tr :
  exists new,
    snd (run_git_command_default proc cmd tr) = (tr ++ Spawn cmd :: new)%list /\
    forallb (fun e => negb (is_rmtree e)) new = true.
Proof.
  unfold run_git_command_default, run_git_command.
  change (Z.to_nat 3) with (S 2).
  destruct (run_git_loop_extends proc cmd 3 3 0 5 tr) as [new [Hn Hf]].
  destruct (run_git_loop_spawns_first proc cmd 3 2 0 5 tr) as [new' Hn'].
  rewrite Hn' in Hn |- *. apply app_inv_head in Hn. subst new.
  exists new'. split; [reflexivity | exact Hf].
Qed.

(** The first effect of [backup_repository] is the pull when the mirror path
    exists and the clone otherwise. *)
Lemma backup_repository_first_spawn url dir tr :
  exists rest,
    snd (backup_repository proc path_exists url dir tr)
    = (tr ++ Spawn (if path_exists tr (repo_path dir url)
                    then pull_command (repo_path dir url)
                    else clone_command url (repo_path dir url)) :: rest)%list.
Proof.
  unfold backup_repository, bind, exists_path.
  destruct (path_exists tr (repo_path dir url)).
  - destruct (run_git_command_default_extends (pull_command (repo_path dir url)) tr)
      as [new [Hn _]].
    destruct (run_git_command_default proc (pull_command (repo_path dir url)) tr)
      as [[b o] t] eqn:E.
    simpl in Hn. subst t.
    destruct b; simpl.
    + exists new. reflexivity.
    + unfold emit.
      destruct (run_git_command_default_extends (clone_command url (repo_path dir url))
                  ((tr ++ Spawn (pull_command (repo_path dir url)) :: new) ++
                   [Rmtree (repo_path dir url)])%list) as [new2 [Hn2 _]].
      destruct (run_git_command_default proc (clone_command url (repo_path dir url))
                  ((tr ++ Spawn (pull_command (repo_path dir url)) :: new) ++
                   [Rmtree (repo_path dir url)])%list) as [[b2 o2] t2].
      simpl in Hn2. subst t2.
      exists ((new ++ [Rmtree (repo_path dir url)]) ++
              Spawn (clone_command url (repo_path dir url)) :: new2)%list.
      destruct b2; simpl; now rewrite <- !app_assoc.
  - destruct (run_git_command_default_extends (clone_command url (repo_path dir url)) tr)
      as [new [Hn _]].
    destruct (run_git_command_default proc (clone_command url (repo_path dir url)) tr)
      as [[b o] t].
    simpl in Hn. subst t.
    exists new. destruct b; reflexivity.
Qed.

End BackupFacts.

(** ** Facts about strings *)

Lemma prefix_single_cons (a c : ascii) (t : string) :
  prefix (String a EmptyString) (String c t) = (if ascii_dec a c then true else false).
Proof. simpl. destruct (ascii_dec a c), t; reflexivity. Qed.

Lemma contains_slash_app (a b : string) :
  contains "/" (a ++ b) = contains "/" a || contains "/" b.
Proof.
  induction a as [|c a IH]; [reflexivity|].
  change (prefix "/" (String c (a ++ b)) || contains "/" (a ++ b)
          = (prefix "/" (String c a) || contains "/" a) || contains "/" b).
  rewrite IH, !prefix_single_cons. apply orb_assoc.
Qed.

Lemma string_of_list_ascii_snoc (l : list ascii) (c : ascii) (t : string) :
  string_of_list_ascii (l ++ [c]) ++ t = string_of_list_ascii l ++ String c t.
Proof. induction l as [|x l IH]; simpl; [reflexivity | now rewrite IH]. Qed.

Lemma last_component_acc_after_slash (s : string) (acc : list ascii) (t : string) :
  last_component_acc acc (s ++ String "/" t) = last_component_acc [] t.
Proof.
  revert acc. induction s as [|c s IH]; intros acc; simpl; [reflexivity|].
  destruct (Ascii.eqb c "/"); apply IH.
Qed.

Lemma last_component_acc_no_slash (t : string) (acc : list ascii) :
  contains "/" t = false ->
  last_component_acc acc t = string_of_list_ascii (rev acc) ++ t.
Proof.
  revert acc. induction t as [|c t IH]; intros acc H; simpl.
  - induction (string_of_list_ascii (rev acc)) as [|x r IHr]; simpl;
      [reflexivity | now rewrite <- IHr].
  - change (prefix "/" (String c t) || contains "/" t = false) in H.
    apply orb_false_iff in H. destruct H as [Hc Ht].
    assert (Ascii.eqb c "/" = false) as ->.
    { rewrite prefix_single_cons in Hc. apply Ascii.eqb_neq.
      destruct (ascii_dec "/" c) as [E|E]; [discriminate Hc | congruence]. }
    rewrite IH by exact Ht. simpl. apply string_of_list_ascii_snoc.
Qed.

Lemma last_component_github (owner n : string) :
  contains "/" n = false ->
  last_component ("https://github.com/" ++ owner ++ "/" ++ n ++ ".git")
  = n ++ ".git".
Proof.
  intros Hn. unfold last_component.
  rewrite <- app_string_assoc.
  change ("/" ++ (n ++ ".git"))%string with (String "/" (n ++ ".git")).
  rewrite last_component_acc_after_slash, last_component_acc_no_slash.
  - reflexivity.
  - rewrite contains_slash_app, Hn. reflexivity.
Qed.

Lemma string_app_nil_r (s : string) : (s ++ "")%string = s.
Proof. induction s as [|c s IH]; simpl; [reflexivity | now rewrite IH]. Qed.

Lemma ascii_eqb_slash_prefix (c : ascii) (t : string) :
  prefix "/" (String c t) = Ascii.eqb c "/".
Proof.
  rewrite prefix_single_cons. destruct (ascii_dec "/" c) as [E|E].
  - subst. reflexivity.
  - symmetry. apply Ascii.eqb_neq. congruence.
Qed.

Lemma last_component_acc_split (s : string) : forall acc,
  contains "/" (string_of_list_ascii (rev acc)) = false ->
  contains "/" (last_component_acc acc s) = false /\
  ((contains "/" s = false /\
    last_component_acc acc s = (string_of_list_ascii (rev acc) ++ s)%string) \/
   exists pre, s = (pre ++ "/" ++ last_component_acc acc s)%string).
Proof.
  induction s as [|c s IH]; intros acc Hacc.
  - simpl. split; [exact Hacc|]. left. split; [reflexivity|]. now rewrite string_app_nil_r.
  - change (last_component_acc acc (String c s))
      with (if Ascii.eqb c "/" then last_component_acc [] s
            else last_component_acc (c :: acc) s).
    change (contains "/" (String c s)) with (prefix "/" (String c s) || contains "/" s).
    rewrite ascii_eqb_slash_prefix.
    destruct (Ascii.eqb c "/") eqn:Ec.
    + apply Ascii.eqb_eq in Ec. subst c.
      destruct (IH [] eq_refl) as [Hc [[Hs Hl] | [pre Hpre]]].
      * split; [exact Hc|]. right. exists "". rewrite Hl. reflexivity.
      * split; [exact Hc|]. right. exists (String "/" pre). simpl. f_equal. exact Hpre.
    + assert (Hacc' : contains "/" (string_of_list_ascii (rev (c :: acc))) = false).
      { simpl. rewrite <- (string_app_nil_r (string_of_list_ascii (rev acc ++ [c]))).
        rewrite string_of_list_ascii_snoc, contains_slash_app, Hacc. simpl.
        change (prefix "/" (String c "") || false = false).
        rewrite ascii_eqb_slash_prefix, Ec. reflexivity. }
      destruct (IH (c :: acc) Hacc') as [Hc [[Hs Hl] | [pre Hpre]]].
      * split; [exact Hc|]. left. rewrite Hs. split; [reflexivity|].
        rewrite Hl. simpl. apply string_of_list_ascii_snoc.
      * split; [exact Hc|]. right. exists (String c pre). simpl. f_equal. exact Hpre.
Qed.

(** ** Facts about [main] *)

Lemma filter_partition_length {A} (f : A -> bool) (l : list A) :
  (length (filter f l) + length (filter (fun x => negb (f x)) l))%nat = length l.
Proof.
  induction l as [|x l IH]; simpl; [reflexivity|].
  destruct (f x); simpl; lia.
Qed.

Section MainFacts.

Variable proc : trace -> command -> proc_result.
Variable path_exists : trace -> string -> bool.

Lemma backup_loop_partition dir repos succ fail tr succ' fail' tr' :
  backup_loop proc path_exists dir repos succ fail tr = ((succ', fail'), tr') ->
  exists outs : list (bool * string),
    length outs = length repos /\
    succ' = (succ ++ map (fun p => name (fst p))
                        (filter (fun p => fst (snd p)) (combine repos outs)))%list /\
    fail' = (fail ++ map (fun p => (name (fst p), snd (snd p)))
                        (filter (fun p => negb (fst (snd p))) (combine repos outs)))%list.
Proof.
  revert succ fail tr.
  induction repos as [|r rs IH]; intros succ fail tr H; simpl in H.
  - unfold ret in H. injection H as <- <- _.
    exists []. simpl. rewrite !app_nil_r. auto.
  - unfold bind in H.
    destruct (backup_repository proc path_exists (clone_url r) dir tr) as [[b o] t].
    destruct b; simpl in H; apply IH in H; destruct H as [outs [Hl [Hs Hf]]].
    + exists ((true, o) :: outs). simpl. rewrite Hl. split; [reflexivity|].
      rewrite Hs, Hf, <- !app_assoc. split; reflexivity.
    + exists ((false, o) :: outs). simpl. rewrite Hl. split; [reflexivity|].
      rewrite Hs, Hf, <- !app_assoc. split; reflexivity.
Qed.

Lemma configure_git_loop_no_exc cfgs tr :
  (forall h kv msg, In kv cfgs -> proc h (config_command kv) <> ProcExc msg) ->
  configure_git_loop proc cfgs tr
  = (true, (tr ++ map (fun kv => Spawn (config_command kv)) cfgs)%list).
Proof.
  revert tr. induction cfgs as [|kv cfgs IH]; intros tr H; simpl.
  - now rewrite app_nil_r.
  - unfold bind, spawn.
    destruct (proc tr (config_command kv)) as [o|e|msg] eqn:E.
    + rewrite IH by (intros h kv' m Hin; apply (H h kv' m); now right).
      now rewrite <- app_assoc.
    + rewrite IH by (intros h kv' m Hin; apply (H h kv' m); now right).
      now rewrite <- app_assoc.
    + exfalso. apply (H tr kv msg); [now left | exact E].
Qed.

Lemma backup_loop_trace_by_clone_url dir rs1 : forall rs2 s1 f1 s2 f2 tr,
  map clone_url rs1 = map clone_url rs2 ->
  snd (backup_loop proc path_exists dir rs1 s1 f1 tr)
  = snd (backup_loop proc path_exists dir rs2 s2 f2 tr).
Proof.
  induction rs1 as [|r1 rs1 IH]; intros [|r2 rs2] s1 f1 s2 f2 tr H; try discriminate H.
  - reflexivity.
  - simpl in H. injection H as Hu Hrest. simpl. unfold bind. rewrite Hu.
    destruct (backup_repository proc path_exists (clone_url r2) dir tr) as [[b o] t].
    destruct b; apply IH; exact Hrest.
Qed.

End MainFacts.

(** ** The claims *)

Section Claims.

Variable proc : trace -> command -> proc_result.
Variable path_exists : trace -> string -> bool.

(** C1: when every attempt of [cmd] fails with a transient error text,
    [run_git_command cmd retries d] (with [retries >= 1]) makes exactly
    [retries] attempts, waits [d], [2*d], [4*d], ... ([d * 2^k] after the
    [k+1]-th attempt) between them, and returns a failure; with the
    defaults this is 3 attempts and the waits 5 and 10. *)
Theorem run_git_command_persistent_transient (cmd : command) (retries d : Z)
    (tr : trace) :
  1 <= retries ->
  (forall h, exists err, proc h cmd = ProcErr err /\ is_transient err = true) ->
  fst (fst (run_git_command proc cmd retries d tr)) = false /\
  snd (run_git_command proc cmd retries d tr)
    = (tr ++ transient_schedule cmd (Z.to_nat retries) d)%list /\
  spawn_count (transient_schedule cmd (Z.to_nat retries) d) = Z.to_nat retries /\
  sleeps (transient_schedule cmd (Z.to_nat retries) d)
    = map (fun k => d * 2 ^ Z.of_nat k) (seq 0 (Z.to_nat retries - 1)) /\
  fst (fst (run_git_command_default proc cmd tr)) = false /\
  snd (run_git_command_default proc cmd tr)
    = (tr ++ [Spawn cmd; Sleep 5; Spawn cmd; Sleep 10; Spawn cmd])%list.
Proof.
  intros Hr Hall.
  unfold run_git_command_default, run_git_command.
  destruct (run_git_loop_all_transient proc cmd retries (Z.to_nat retries) 0 d tr Hall)
    as [H1 H2]; [lia | lia |].
  destruct (run_git_loop_all_transient proc cmd 3 (Z.to_nat 3) 0 5 tr Hall)
    as [H3 H4]; [lia | lia |].
  split; [exact H1|]. split; [exact H2|].
  split; [apply transient_schedule_spawns|].
  split.
  - destruct (Z.to_nat retries) as [|m] eqn:E; [lia|].
    replace (S m - 1)%nat with m by lia. apply transient_schedule_sleeps.
  - split; [exact H3|]. rewrite H4. reflexivity.
Qed.

(** C2: at any attempt [j] (counted from 0), reached after [j] transient
    failures each followed by its wait, a failure whose error text matches
    no transient indicator ends [run_git_command] at once with
    [(false, err)]: no further attempt and no wait. On the last allowed
    attempt every failure ends it so. When attempts remain, the wait
    [d * 2^j] and a further attempt follow exactly when the text is
    transient. *)
Theorem run_git_command_fatal_failure (cmd : command) (retries d : Z) (tr : trace)
    (j : nat) (err : string) :
  Z.of_nat j < retries ->
  (forall i, (i < j)%nat ->
     exists e, proc (tr ++ retry_prefix cmd i d)%list cmd = ProcErr e /\
               is_transient e = true) ->
  proc (tr ++ retry_prefix cmd j d)%list cmd = ProcErr err ->
  (is_transient err = false ->
   run_git_command proc cmd retries d tr
   = ((false, err), (tr ++ retry_prefix cmd j d ++ [Spawn cmd])%list)) /\
  (Z.of_nat j + 1 = retries ->
   run_git_command proc cmd retries d tr
   = ((false, err), (tr ++ retry_prefix cmd j d ++ [Spawn cmd])%list)) /\
  (Z.of_nat j + 1 < retries ->
   (is_transient err = true <->
    exists rest, snd (run_git_command proc cmd retries d tr)
                 = (tr ++ retry_prefix cmd j d ++
                    Spawn cmd :: Sleep (d * 2 ^ Z.of_nat j) :: Spawn cmd :: rest)%list)).
Proof.
  intros Hj Hall Hp. unfold run_git_command.
  rewrite (run_git_loop_after_retries proc cmd retries j (Z.to_nat retries) 0 d tr);
    [| lia | lia | exact Hall].
  rewrite Z.add_0_l.
  destruct (Z.to_nat retries - j)%nat as [|m] eqn:E; [lia|].
  simpl. unfold bind, spawn. rewrite Hp.
  split; [|split].
  - intros Ht. rewrite Ht. now rewrite <- app_assoc.
  - intros Hl. replace (Z.of_nat j <? retries - 1) with false by (symmetry; apply Z.ltb_ge; lia).
    destruct (is_transient err); now rewrite <- app_assoc.
  - intros Hl. split.
    + intros Ht. rewrite Ht.
      replace (Z.of_nat j <? retries - 1) with true by (symmetry; apply Z.ltb_lt; lia).
      unfold emit; cbn -[run_git_loop].
      destruct m as [|m]; [lia|].
      destruct (run_git_loop_spawns_first proc cmd retries m (Z.of_nat j + 1)
                  (d * 2 ^ Z.of_nat j * 2)
                  (((tr ++ retry_prefix cmd j d) ++ [Spawn cmd]) ++ [Sleep (d * 2 ^ Z.of_nat j)])%list)
        as [new Hn].
      rewrite Hn. exists new. now rewrite <- !app_assoc.
    + intros [rest Hrest].
      destruct (is_transient err) eqn:Ht; [reflexivity|].
      simpl in Hrest. rewrite <- !app_assoc in Hrest. apply app_inv_head in Hrest.
      apply app_inv_head in Hrest. discriminate.
Qed.

(** C3: when the mirror path exists and the pull fails, whatever happens
    next, [backup_repository] removes the path with
    [rmtree(..., ignore_errors=True)], whose outcome is not consulted, and
    then runs [git clone --depth 1], the same command the absent case runs
    first: the rest of its effects are that clone's. If that clone
    succeeds the result is [(True, "Re-cloned successfully")]. *)
Theorem backup_repository_reclone_after_failed_update (url dir : string)
    (tr : trace) (o1 : string) (tr1 : trace) :
  path_exists tr (repo_path dir url) = true ->
  run_git_command_default proc (pull_command (repo_path dir url)) tr = ((false, o1), tr1) ->
  snd (backup_repository proc path_exists url dir tr)
  = snd (run_git_command_default proc (clone_command url (repo_path dir url))
           (tr1 ++ [Rmtree (repo_path dir url)])%list) /\
  (exists new,
     snd (backup_repository proc path_exists url dir tr)
     = (tr1 ++ Rmtree (repo_path dir url)
            :: Spawn (clone_command url (repo_path dir url)) :: new)%list) /\
  (fst (fst (run_git_command_default proc (clone_command url (repo_path dir url))
               (tr1 ++ [Rmtree (repo_path dir url)])%list)) = true ->
   fst (backup_repository proc path_exists url dir tr) = (true, "Re-cloned successfully")) /\
  (forall (proc' : trace -> command -> proc_result) (path_exists' : trace -> string -> bool)
          (tr' : trace),
     path_exists' tr' (repo_path dir url) = false ->
     exists rest,
       snd (backup_repository proc' path_exists' url dir tr')
       = (tr' ++ Spawn (clone_command url (repo_path dir url)) :: rest)%list).
Proof.
  intros He Hpull.
  assert (Hb : backup_repository proc path_exists url dir tr
               = (let r' := run_git_command_default proc (clone_command url (repo_path dir url))
                              (tr1 ++ [Rmtree (repo_path dir url)])%list in
                  (if fst (fst r') then (true, "Re-cloned successfully")
                   else (false, "Failed to re-clone: " ++ snd (fst r')), snd r'))).
  { unfold backup_repository, bind, exists_path. rewrite He, Hpull. simpl.
    unfold emit.
    destruct (run_git_command_default proc (clone_command url (repo_path dir url))
                (tr1 ++ [Rmtree (repo_path dir url)])%list) as [[b o] t].
    destruct b; reflexivity. }
  rewrite Hb. split; [reflexivity|]. split; [|split].
  - destruct (run_git_command_default_extends proc (clone_command url (repo_path dir url))
                (tr1 ++ [Rmtree (repo_path dir url)])%list) as [new [Hn _]].
    exists new. simpl. rewrite Hn. now rewrite <- app_assoc.
  - simpl. intros Ht. rewrite Ht. reflexivity.
  - intros proc' path_exists' tr' Habs.
    destruct (backup_repository_first_spawn proc' path_exists' url dir tr') as [rest Hr].
    rewrite Habs in Hr. exists rest. exact Hr.
Qed.

(** C4 (as the code does it): when the mirror path exists, the pull fails
    and the re-clone fails too, the failure detail is
    ["Failed to re-clone: "] followed by the re-clone's failure detail only. *)
Theorem backup_repository_reclone_failure_detail (url dir : string)
    (tr : trace) (o1 o2 : string) (tr1 tr2 : trace) :
  path_exists tr (repo_path dir url) = true ->
  run_git_command_default proc (pull_command (repo_path dir url)) tr
    = ((false, o1), tr1) ->
  run_git_command_default proc (clone_command url (repo_path dir url))
    (tr1 ++ [Rmtree (repo_path dir url)])%list = ((false, o2), tr2) ->
  backup_repository proc path_exists url dir tr
    = ((false, "Failed to re-clone: " ++ o2), tr2).
Proof.
  intros He Hpull Hclone.
  unfold backup_repository, bind, exists_path. rewrite He, Hpull. simpl.
  unfold emit. rewrite Hclone. reflexivity.
Qed.

(** C5 (as the code does it): the first effect of [backup_repository] is the
    pull exactly when [os.path.exists] holds for the mirror path, and the
    clone otherwise; nothing else (in particular no [.git] directory) is
    consulted. *)
Theorem backup_repository_branch_on_exists (url dir : string) (tr : trace) :
  exists rest,
    snd (backup_repository proc path_exists url dir tr)
    = (tr ++ Spawn (if path_exists tr (repo_path dir url)
                    then pull_command (repo_path dir url)
                    else clone_command url (repo_path dir url)) :: rest)%list.
Proof. apply backup_repository_first_spawn. Qed.

(** C6: when the mirror path exists and the pull succeeds, the result is
    [(True, "Updated successfully")] and no removal happens: the effects
    are those of the pull only, none of them an [rmtree]. *)
Theorem backup_repository_update_in_place (url dir : string) (tr : trace)
    (o : string) (tr1 : trace) :
  path_exists tr (repo_path dir url) = true ->
  run_git_command_default proc (pull_command (repo_path dir url)) tr
    = ((true, o), tr1) ->
  backup_repository proc path_exists url dir tr
    = ((true, "Updated successfully"), tr1) /\
  exists new, tr1 = (tr ++ new)%list /\
              forallb (fun e => negb (is_rmtree e)) new = true.
Proof.
  intros He Hpull. split.
  - unfold backup_repository, bind, exists_path. rewrite He, Hpull. reflexivity.
  - destruct (run_git_command_default_extends proc
                (pull_command (repo_path dir url)) tr) as [new [Hn Hf]].
    rewrite Hpull in Hn. simpl in Hn.
    exists (Spawn (pull_command (repo_path dir url)) :: new). split; [exact Hn|].
    simpl. exact Hf.
Qed.

(** C7: when the mirror path does not exist, [backup_repository] runs
    [git clone --depth 1 <url> <path>] through [run_git_command] and returns
    [(True, "Cloned successfully")] on success and
    [(False, "Failed to clone: " + detail)] on failure. *)
Theorem backup_repository_clone_when_absent (url dir : string) (tr : trace) :
  path_exists tr (repo_path dir url) = false ->
  clone_command url (repo_path dir url)
    = ["git"; "clone"; "--depth"; "1"; url; repo_path dir url] /\
  backup_repository proc path_exists url dir tr
    = (let (r, tr') := run_git_command_default proc
                         (clone_command url (repo_path dir url)) tr in
       (if fst r then (true, "Cloned successfully")
        else (false, "Failed to clone: " ++ snd r), tr')) /\
  exists rest,
    snd (backup_repository proc path_exists url dir tr)
    = (tr ++ Spawn (clone_command url (repo_path dir url)) :: rest)%list.
Proof.
  intros He. split; [reflexivity|]. split.
  - unfold backup_repository, bind, exists_path. rewrite He.
    destruct (run_git_command_default proc (clone_command url (repo_path dir url)) tr)
      as [[b o] t].
    destruct b; reflexivity.
  - destruct (backup_repository_first_spawn proc path_exists url dir tr) as [rest Hr].
    rewrite He in Hr. exists rest. exact Hr.
Qed.

(** C8: whenever [main] writes its summary [m], [total_repos] is the number
    of descriptors, equal to [len(successful_repos) + len(failed_repos)];
    each descriptor, in order, has one outcome, and the successful ones
    give [successful_repos] while the others give [failed_repos]. *)
Theorem main_summary_partition (dir : string) (repos : list repo) (now : string)
    (tr : trace) (m : metadata) (tr' : trace) :
  main proc path_exists dir repos now tr = (Some m, tr') ->
  (exists outs : list (bool * string),
     length outs = length repos /\
     successful_repos m
       = map (fun p => name (fst p))
             (filter (fun p => fst (snd p)) (combine repos outs)) /\
     failed_repos m
       = map (fun p => (name (fst p), snd (snd p)))
             (filter (fun p => negb (fst (snd p))) (combine repos outs))) /\
  total_repos m = Z.of_nat (length repos) /\
  total_repos m
    = Z.of_nat (length (successful_repos m)) + Z.of_nat (length (failed_repos m)) /\
  success_count m = Z.of_nat (length (successful_repos m)) /\
  fail_count m = Z.of_nat (length (failed_repos m)) /\
  exists pre, tr' = (pre ++ [Persist (metadata_file dir) m])%list.
Proof.
  unfold main, bind.
  destruct (configure_git proc tr) as [ok t1].
  destruct ok; simpl; [|discriminate].
  assert (Hloop : exists outs : list (bool * string),
    length outs = length repos /\
    fst (match repos with
         | [] => ret ([], [])
         | _ => backup_loop proc path_exists dir repos [] []
         end t1)
    = (map (fun p => name (fst p))
           (filter (fun p => fst (snd p)) (combine repos outs)),
       map (fun p => (name (fst p), snd (snd p)))
           (filter (fun p => negb (fst (snd p))) (combine repos outs)))).
  { destruct repos as [|r rs].
    - exists []. split; reflexivity.
    - destruct (backup_loop proc path_exists dir (r :: rs) [] [] t1)
        as [[s f] t2] eqn:E.
      apply backup_loop_partition in E. destruct E as [outs [Hl [Hs Hf]]].
      exists outs. split; [exact Hl|]. simpl. now rewrite Hs, Hf. }
  destruct Hloop as [outs [Hl Hlists]].
  destruct (match repos with
            | [] => ret ([], [])
            | _ => backup_loop proc path_exists dir repos [] []
            end t1) as [[s f] t2].
  simpl in Hlists. injection Hlists as Hs Hf.
  unfold emit, ret. intros H. injection H as <- <-. simpl.
  split; [exists outs; rewrite Hs, Hf; auto|].
  split; [reflexivity|].
  split.
  - rewrite Hs, Hf, !length_map, <- Nat2Z.inj_add, filter_partition_length.
    rewrite length_combine, Hl, Nat.min_id. reflexivity.
  - split; [reflexivity|]. split; [reflexivity|]. exists t2. reflexivity.
Qed.

(** C9 (as the code does it): with an empty descriptor list, and when none of
    [configure_git]'s twelve [git config --global] invocations raises an
    exception other than [CalledProcessError], [main] writes the summary
    with total 0 and empty lists; the only processes spawned are those
    twelve [git config] invocations (no clone, no pull). *)
Theorem main_empty_descriptors (dir now : string) (tr : trace) :
  (forall h kv msg, In kv git_configs -> proc h (config_command kv) <> ProcExc msg) ->
  main proc path_exists dir [] now tr
  = (Some (mk_metadata now [] [] 0 0 0),
     (tr ++ map (fun kv => Spawn (config_command kv)) git_configs
         ++ [Persist (metadata_file dir) (mk_metadata now [] [] 0 0 0)])%list).
Proof.
  intros H. unfold main, bind, configure_git.
  rewrite configure_git_loop_no_exc by exact H.
  simpl. unfold emit. now rewrite <- app_assoc.
Qed.

(** C10 (as the code does it): for any clone URL, the component [c] that
    [backup_repository] appends to [backup_dir] has no ['/'] and is the text
    after the last ['/'] of the URL (the whole URL when there is none); the
    first process runs on [os.path.join(backup_dir, c)]. [main] passes only
    [clone_url]: two descriptor lists with the same clone URLs give the
    same effects up to the summary written last, whatever the names. For a
    GitHub URL [https://github.com/<owner>/<n>.git], [c] is [<n>.git]. *)
Theorem repo_path_from_clone_url (url dir : string) (tr : trace) (owner n : string) :
  contains "/" (last_component url) = false /\
  ((contains "/" url = false /\ last_component url = url) \/
   exists pre, url = (pre ++ "/" ++ last_component url)%string) /\
  (exists rest,
    snd (backup_repository proc path_exists url dir tr)
    = (tr ++ Spawn (if path_exists tr (path_join dir (last_component url))
                    then pull_command (path_join dir (last_component url))
                    else clone_command url (path_join dir (last_component url))) :: rest)%list) /\
  (forall (repos1 repos2 : list repo) (now1 now2 : string),
     map clone_url repos1 = map clone_url repos2 ->
     removelast (snd (main proc path_exists dir repos1 now1 tr))
     = removelast (snd (main proc path_exists dir repos2 now2 tr))) /\
  (contains "/" n = false ->
   last_component ("https://github.com/" ++ owner ++ "/" ++ n ++ ".git") = (n ++ ".git")%string).
Proof.
  split; [|split; [|split; [|split]]].
  - apply (last_component_acc_split url [] eq_refl).
  - destruct (last_component_acc_split url [] eq_refl) as [_ [[Hs Hl] | Hpre]].
    + left. split; [exact Hs | exact Hl].
    + right. exact Hpre.
  - apply backup_repository_first_spawn.
  - intros repos1 repos2 now1 now2 H. unfold main, bind.
    destruct (configure_git proc tr) as [ok t1].
    destruct ok; [|reflexivity]. cbv beta iota delta [negb].
    destruct (configure_proxy_loop proc proxy_handler_proxies t1) as [u t2].
    destruct repos1 as [|r1 rs1], repos2 as [|r2 rs2]; try discriminate H.
    + unfold ret, emit. cbn -[removelast]. rewrite !removelast_last. reflexivity.
    + pose proof (backup_loop_trace_by_clone_url proc path_exists dir (r1 :: rs1) (r2 :: rs2) [] [] [] [] t2 H)
        as E.
      destruct (backup_loop proc path_exists dir (r1 :: rs1) [] [] t2) as [[s1 f1] t3].
      destruct (backup_loop proc path_exists dir (r2 :: rs2) [] [] t2) as [[s2 f2] t4].
      simpl in E. subst t4. unfold ret, emit. cbn -[removelast].
      rewrite !removelast_last. reflexivity.
  - apply last_component_github.
Qed.

End Claims.

Lemma run_git_command_persistent_transient_witness :
  1 <= 3 /\
  fst (fst (run_git_command world_eof ["git"; "pull"] 3 7 [])) = false.
Proof.
  split; [lia|].
  apply (run_git_command_persistent_transient world_eof ["git"; "pull"] 3 7 []).
  - lia.
  - intros h. exists "fatal: early EOF". split; reflexivity.
Defined.

Lemma run_git_command_fatal_failure_witness :
  run_git_command world_eof_then_fatal ["git"; "pull"] 3 5 []
  = ((false, "fatal: repository not found"),
     [Spawn ["git"; "pull"]; Sleep 5; Spawn ["git"; "pull"]]).
Proof.
  refine (proj1 (run_git_command_fatal_failure world_eof_then_fatal ["git"; "pull"] 3 5 [] 1
           "fatal: repository not found" _ _ _) _); [lia | | reflexivity | reflexivity].
  intros i Hi. assert (i = 0%nat) as -> by lia.
  exists "fatal: early EOF". split; reflexivity.
Defined.

Lemma backup_repository_reclone_after_failed_update_witness :
  fst (backup_repository world_pull_fails (disk_only "/b/a.git") "https://x/a.git" "/b" [])
  = (true, "Re-cloned successfully").
Proof.
  refine (proj1 (proj2 (proj2 (backup_repository_reclone_after_failed_update world_pull_fails
    (disk_only "/b/a.git") "https://x/a.git" "/b" []
    "error: Your local changes would be overwritten by merge"
    [Spawn (pull_command "/b/a.git")] _ _))) _); reflexivity.
Defined.

Lemma backup_repository_reclone_failure_detail_witness :
  backup_repository world_pull_and_clone_fail (disk_only "/b/a.git")
    "https://x/a.git" "/b" []
  = ((false, "Failed to re-clone: fatal: repository not found"),
     [Spawn (pull_command "/b/a.git"); Rmtree "/b/a.git";
      Spawn (clone_command "https://x/a.git" "/b/a.git")]).
Proof.
  apply (backup_repository_reclone_failure_detail world_pull_and_clone_fail
    (disk_only "/b/a.git") "https://x/a.git" "/b" []
    "error: Your local changes would be overwritten by merge"
    "fatal: repository not found"
    [Spawn (pull_command "/b/a.git")]);
  reflexivity.
Defined.

Lemma backup_repository_update_in_place_witness :
  backup_repository world_ok (disk_only "/b/a.git") "https://x/a.git" "/b" []
  = ((true, "Updated successfully"), [Spawn (pull_command "/b/a.git")]).
Proof.
  refine (proj1 (backup_repository_update_in_place world_ok
    (disk_only "/b/a.git") "https://x/a.git" "/b" [] ""
    [Spawn (pull_command "/b/a.git")] _ _));
  reflexivity.
Defined.

Lemma backup_repository_clone_when_absent_witness :
  backup_repository world_ok disk_empty "https://x/a.git" "/b" []
  = ((true, "Cloned successfully"),
     [Spawn ["git"; "clone"; "--depth"; "1"; "https://x/a.git"; "/b/a.git"]]).
Proof.
  rewrite (proj1 (proj2 (backup_repository_clone_when_absent world_ok disk_empty
    "https://x/a.git" "/b" [] eq_refl))).
  reflexivity.
Defined.

Lemma main_summary_partition_witness :
  total_repos (mk_metadata "t" [] [("a", "Failed to clone: fatal: repository not found")] 1 0 1)
  = Z.of_nat (length [mk_repo "a" "https://x/a.git" 0]).
Proof.
  refine (proj1 (proj2 (main_summary_partition world_pull_and_clone_fail disk_empty
    "/b" [mk_repo "a" "https://x/a.git" 0] "t" []
    (mk_metadata "t" [] [("a", "Failed to clone: fatal: repository not found")] 1 0 1)
    _ _))).
  vm_compute. reflexivity.
Defined.

Lemma main_empty_descriptors_witness :
  fst (main world_ok disk_empty "/b" [] "t" []) = Some (mk_metadata "t" [] [] 0 0 0).
Proof.
  rewrite (main_empty_descriptors world_ok disk_empty "/b" "t" []).
  - reflexivity.
  - intros h kv msg _. discriminate.
Defined.

Lemma repo_path_from_clone_url_witness :
  removelast (snd (main world_ok disk_empty "/b" [mk_repo "a" "https://x/a.git" 0] "t" []))
  = removelast (snd (main world_ok disk_empty "/b" [mk_repo "zz" "https://x/a.git" 7] "u" [])).
Proof.
  exact (proj1 (proj2 (proj2 (proj2 (repo_path_from_clone_url world_ok disk_empty
    "https://x/a.git" "/b" [] "o" "a"))))
    [mk_repo "a" "https://x/a.git" 0] [mk_repo "zz" "https://x/a.git" 7] "t" "u" eq_refl).
Defined.

(** ** Counterexamples *)

(** C4: the pull's failure text does not appear in the re-clone failure
    detail. *)
Lemma reclone_failure_detail_omits_pull_error :
  fst (fst (backup_repository world_pull_and_clone_fail (disk_only "/b/a.git")
              "https://x/a.git" "/b" [])) = false /\
  contains "error: Your local changes would be overwritten by merge"
    (snd (fst (backup_repository world_pull_and_clone_fail (disk_only "/b/a.git")
                 "https://x/a.git" "/b" []))) = false.
Proof. split; vm_compute; reflexivity. Qed.

(** C5: the path exists but holds no [.git] directory, and the update path
    (a pull) is taken all the same. *)
Lemma update_taken_without_git_dir :
  disk_only "/b/a.git" [] "/b/a.git/.git" = false /\
  exists rest,
    snd (backup_repository world_ok (disk_only "/b/a.git") "https://x/a.git" "/b" [])
    = Spawn (pull_command "/b/a.git") :: rest.
Proof. split; [reflexivity | eexists; reflexivity]. Qed.

(** C9: with an empty descriptor list, twelve processes are spawned. *)
Lemma empty_run_spawns_processes :
  fst (main world_ok disk_empty "/b" [] "t" []) = Some (mk_metadata "t" [] [] 0 0 0) /\
  spawn_count (snd (main world_ok disk_empty "/b" [] "t" [])) = 12%nat.
Proof. split; vm_compute; reflexivity. Qed.

(** C10: for the descriptor [{name: "a", clone_url: "https://x/a.git"}] the
    clone goes to ["/b/a.git"]; its last component is ["a.git"], not the
    name ["a"]. *)
Lemma mirror_path_not_the_name :
  nth_error (snd (main world_ok disk_empty "/b" [mk_repo "a" "https://x/a.git" 0] "t" [])) 12
  = Some (Spawn (clone_command "https://x/a.git" "/b/a.git")) /\
  last_component "/b/a.git" <> name (mk_repo "a" "https://x/a.git" 0).
Proof. split; [vm_compute; reflexivity | apply String.eqb_neq; reflexivity]. Qed.

(** ** Further properties of the code *)

Lemma spawn_count_app (a b : trace) :
  spawn_count (a ++ b)%list = (spawn_count a + spawn_count b)%nat.
Proof. induction a as [|[] a IH]; simpl; rewrite ?IH; reflexivity. Qed.

Lemma sleeps_app (a b : trace) : sleeps (a ++ b)%list = (sleeps a ++ sleeps b)%list.
Proof. induction a as [|[] a IH]; simpl; rewrite ?IH; reflexivity. Qed.

Lemma rmtree_count_app (a b : trace) :
  length (filter is_rmtree (a ++ b)%list) = (length (filter is_rmtree a) + length (filter is_rmtree b))%nat.
Proof. now rewrite filter_app, length_app. Qed.

Section Extra.

Variable proc : trace -> command -> proc_result.
Variable path_exists : trace -> string -> bool.

Lemma run_git_loop_shape cmd retries n attempt delay tr :
  attempt + Z.of_nat n = retries -> (1 <= n)%nat ->
  exists new,
    snd (run_git_loop proc cmd retries n attempt delay tr) = (tr ++ new)%list /\
    (1 <= spawn_count new <= n)%nat /\
    Forall (fun e => e = Spawn cmd \/ exists s, e = Sleep s) new /\
    sleeps new = map (fun k => delay * 2 ^ Z.of_nat k) (seq 0 (spawn_count new - 1)).
Proof.
  revert attempt delay tr.
  induction n as [|n IH]; intros attempt delay tr Ha Hn; [lia|].
  simpl. unfold bind, spawn.
  assert (Hone : exists new, (tr ++ [Spawn cmd])%list = (tr ++ new)%list /\
    (1 <= spawn_count new <= S n)%nat /\
    Forall (fun e => e = Spawn cmd \/ exists s, e = Sleep s) new /\
    sleeps new = map (fun k => delay * 2 ^ Z.of_nat k) (seq 0 (spawn_count new - 1))).
  { exists [Spawn cmd]. simpl. repeat split; auto; lia. }
  destruct (proc tr cmd) as [out|err|msg]; [exact Hone| |exact Hone].
  destruct (is_transient err); [|exact Hone].
  destruct (attempt <? retries - 1) eqn:Hlt; [|exact Hone].
  apply Z.ltb_lt in Hlt.
  unfold emit; cbn -[run_git_loop].
  destruct (IH (attempt + 1) (delay * 2) ((tr ++ [Spawn cmd]) ++ [Sleep delay])%list)
    as [new [Hs [Hc [Hf Hsl]]]]; [lia | lia |].
  rewrite Hs. exists (Spawn cmd :: Sleep delay :: new).
  split; [now rewrite <- !app_assoc|].
  simpl. split; [lia|]. split; [constructor; [now left | constructor; [right; eauto | exact Hf]]|].
  rewrite Hsl. destruct (spawn_count new) as [|c] eqn:Ec; [lia|].
  replace (S c - 1)%nat with c by lia. replace (S (S c) - 1)%nat with (S c) by lia.
  simpl. rewrite Z.mul_1_r. f_equal.
  rewrite <- seq_shift, map_map. apply map_ext. intros k.
  rewrite Nat2Z.inj_succ, Z.pow_succ_r by lia. ring.
Qed.

Lemma run_git_loop_schedule cmd retries n : forall attempt delay tr,
  attempt + Z.of_nat n = retries -> (1 <= n)%nat ->
  exists k, (1 <= k <= n)%nat /\
    snd (run_git_loop proc cmd retries n attempt delay tr)
    = (tr ++ transient_schedule cmd k delay)%list.
Proof.
  induction n as [|n IH]; intros attempt delay tr Ha Hn; [lia|].
  simpl. unfold bind, spawn.
  assert (Hone : exists k, (1 <= k <= S n)%nat /\
            (tr ++ [Spawn cmd])%list = (tr ++ transient_schedule cmd k delay)%list).
  { exists 1%nat. split; [lia | reflexivity]. }
  destruct (proc tr cmd) as [out|err|msg]; [exact Hone| |exact Hone].
  destruct (is_transient err); [|exact Hone].
  destruct (attempt <? retries - 1) eqn:Hlt; [|exact Hone].
  apply Z.ltb_lt in Hlt.
  unfold emit; cbn -[run_git_loop].
  destruct (IH (attempt + 1) (delay * 2) ((tr ++ [Spawn cmd]) ++ [Sleep delay])%list)
    as [k [Hk Hs]]; [lia | lia |].
  rewrite Hs. exists (S k). split; [lia|].
  destruct k as [|k]; [lia|].
  change (transient_schedule cmd (S (S k)) delay)
    with (Spawn cmd :: Sleep delay :: transient_schedule cmd (S k) (delay * 2)).
  now rewrite <- !app_assoc.
Qed.

(** X1: with [retries >= 1], the effects of [run_git_command] are [k]
    attempts of [cmd] for some [1 <= k <= retries], with a wait between
    each two consecutive attempts and none before the first or after the
    last; the waits are [d], [2*d], [4*d], ... *)
Theorem run_git_command_attempts_and_waits (cmd : command) (retries d : Z) (tr : trace) :
  1 <= retries ->
  exists k,
    (1 <= k <= Z.to_nat retries)%nat /\
    snd (run_git_command proc cmd retries d tr) = (tr ++ transient_schedule cmd k d)%list /\
    spawn_count (transient_schedule cmd k d) = k /\
    sleeps (transient_schedule cmd k d)
    = map (fun i => d * 2 ^ Z.of_nat i) (seq 0 (k - 1)).
Proof.
  intros Hr. unfold run_git_command.
  destruct (run_git_loop_schedule cmd retries (Z.to_nat retries) 0 d tr) as [k [Hk Hs]];
    [lia | lia |].
  exists k. split; [exact Hk|]. split; [exact Hs|].
  split; [apply transient_schedule_spawns|].
  destruct k as [|k]; [lia|]. replace (S k - 1)%nat with k by lia.
  apply transient_schedule_sleeps.
Qed.

(** X2: with [retries <= 0] the loop body never runs: no process is spawned
    and the result is [(False, "Max retries reached")]. *)
Theorem run_git_command_no_attempts (cmd : command) (retries d : Z) (tr : trace) :
  retries <= 0 ->
  run_git_command proc cmd retries d tr = ((false, "Max retries reached"), tr).
Proof.
  intros Hr. unfold run_git_command.
  replace (Z.to_nat retries) with 0%nat by lia. reflexivity.
Qed.

(** X3: an exception other than [CalledProcessError] (e.g. git missing) ends
    [run_git_command] after that attempt with [(False, str(e))], whatever
    the retry budget. *)
Theorem run_git_command_exception_not_retried (cmd : command) (retries d : Z)
    (tr : trace) (msg : string) :
  1 <= retries ->
  proc tr cmd = ProcExc msg ->
  run_git_command proc cmd retries d tr = ((false, msg), (tr ++ [Spawn cmd])%list).
Proof.
  intros Hr Hp. unfold run_git_command.
  destruct (Z.to_nat retries) as [|m] eqn:E; [lia|].
  simpl. unfold bind, spawn. rewrite Hp. reflexivity.
Qed.

Lemma run_git_command_default_shape cmd tr :
  exists new,
    snd (run_git_command_default proc cmd tr) = (tr ++ new)%list /\
    (spawn_count new <= 3)%nat /\
    Forall (fun e => e = Spawn cmd \/ exists s, e = Sleep s) new.
Proof.
  destruct (run_git_loop_shape cmd 3 3 0 5 tr) as [new [Hs [Hc [Hf _]]]]; [lia|lia|].
  exists new. unfold run_git_command_default, run_git_command.
  change (Z.to_nat 3) with 3%nat. repeat split; auto; lia.
Qed.

End Extra.

Lemma no_rmtree_of_spawn_sleep (c : command) (l : trace) :
  Forall (fun e => e = Spawn c \/ exists s, e = Sleep s) l ->
  length (filter is_rmtree l) = 0%nat.
Proof.
  induction 1 as [|e l He _ IH]; [reflexivity|].
  destruct He as [-> | [s ->]]; exact IH.
Qed.

Lemma configure_git_loop_effects (p : trace -> command -> proc_result) cfgs tr :
  exists new,
    snd (configure_git_loop p cfgs tr) = (tr ++ new)%list /\
    (length new <= length cfgs)%nat /\
    Forall (fun e => exists kv, In kv cfgs /\ e = Spawn (config_command kv)) new.
Proof.
  revert tr. induction cfgs as [|kv cfgs IH]; intros tr; simpl.
  - exists []. rewrite app_nil_r. auto.
  - unfold bind, spawn.
    destruct (p tr (config_command kv)).
    1, 2: destruct (IH (tr ++ [Spawn (config_command kv)])%list) as [new [Hs [Hl Hf]]];
      rewrite Hs; exists (Spawn (config_command kv) :: new);
      split; [now rewrite <- app_assoc|]; simpl; split; [lia|];
      constructor; [exists kv; auto|];
      eapply Forall_impl; [|exact Hf]; intros e [kv' [Hin He]]; eauto.
    exists [Spawn (config_command kv)]. simpl. split; [reflexivity|].
    split; [lia|]. constructor; [exists kv; auto | constructor].
Qed.

Section Extra2.

Variable proc : trace -> command -> proc_result.
Variable path_exists : trace -> string -> bool.

(** X4: [backup_repository] only ever pulls or clones into its own mirror
    path, removes nothing but that path and at most once, and spawns at
    most 6 processes (3 pull attempts and 3 clone attempts). *)
Theorem backup_repository_effects (url dir : string) (tr : trace) :
  exists new,
    snd (backup_repository proc path_exists url dir tr) = (tr ++ new)%list /\
    Forall (fun e => e = Spawn (pull_command (repo_path dir url)) \/
                     e = Spawn (clone_command url (repo_path dir url)) \/
                     e = Rmtree (repo_path dir url) \/
                     exists s, e = Sleep s) new /\
    (spawn_count new <= 6)%nat /\
    (length (filter is_rmtree new) <= 1)%nat.
Proof.
  unfold backup_repository, bind, exists_path.
  destruct (path_exists tr (repo_path dir url)).
  - destruct (run_git_command_default_shape proc (pull_command (repo_path dir url)) tr)
      as [n1 [H1 [C1 F1]]].
    pose proof (no_rmtree_of_spawn_sleep _ _ F1) as R1.
    destruct (run_git_command_default proc (pull_command (repo_path dir url)) tr)
      as [[b o] t] eqn:E.
    simpl in H1. subst t.
    destruct b; simpl.
    + exists n1. split; [reflexivity|]. split; [|lia].
      eapply Forall_impl; [|exact F1]. intros e [He|He]; auto.
    + unfold emit.
      destruct (run_git_command_default_shape proc (clone_command url (repo_path dir url))
                  ((tr ++ n1) ++ [Rmtree (repo_path dir url)])%list)
        as [n2 [H2 [C2 F2]]].
      pose proof (no_rmtree_of_spawn_sleep _ _ F2) as R2.
      destruct (run_git_command_default proc (clone_command url (repo_path dir url))
                  ((tr ++ n1) ++ [Rmtree (repo_path dir url)])%list) as [[b2 o2] t2].
      simpl in H2. subst t2.
      exists (n1 ++ Rmtree (repo_path dir url) :: n2)%list.
      assert (Hall : Forall (fun e => e = Spawn (pull_command (repo_path dir url)) \/
                     e = Spawn (clone_command url (repo_path dir url)) \/
                     e = Rmtree (repo_path dir url) \/
                     exists s, e = Sleep s) (n1 ++ Rmtree (repo_path dir url) :: n2)%list).
      { apply Forall_app. split.
        - eapply Forall_impl; [|exact F1]. intros e [He|He]; auto.
        - constructor; [auto|]. eapply Forall_impl; [|exact F2]. intros e [He|He]; auto. }
      assert (Hc : (spawn_count (n1 ++ Rmtree (repo_path dir url) :: n2)%list <= 6)%nat).
      { rewrite spawn_count_app. simpl. lia. }
      assert (Hr : (length (filter is_rmtree (n1 ++ Rmtree (repo_path dir url) :: n2)%list)
                    <= 1)%nat).
      { rewrite rmtree_count_app. simpl. lia. }
      destruct b2; simpl; (split; [now rewrite <- !app_assoc|]); auto.
  - destruct (run_git_command_default_shape proc (clone_command url (repo_path dir url)) tr)
      as [n1 [H1 [C1 F1]]].
    pose proof (no_rmtree_of_spawn_sleep _ _ F1) as R1.
    destruct (run_git_command_default proc (clone_command url (repo_path dir url)) tr)
      as [[b o] t].
    simpl in H1. subst t.
    exists n1.
    assert (Hall : Forall (fun e => e = Spawn (pull_command (repo_path dir url)) \/
                     e = Spawn (clone_command url (repo_path dir url)) \/
                     e = Rmtree (repo_path dir url) \/
                     exists s, e = Sleep s) n1).
    { eapply Forall_impl; [|exact F1]. intros e [He|He]; auto. }
    destruct b; simpl; (split; [reflexivity|]); split; auto; lia.
Qed.

Lemma backup_repository_failure_prefix url dir tr :
  fst (fst (backup_repository proc path_exists url dir tr)) = false ->
  exists o, snd (fst (backup_repository proc path_exists url dir tr))
            = "Failed to clone: " ++ o \/
          snd (fst (backup_repository proc path_exists url dir tr))
            = "Failed to re-clone: " ++ o.
Proof.
  unfold backup_repository, bind, exists_path.
  destruct (path_exists tr (repo_path dir url)).
  - destruct (run_git_command_default proc (pull_command (repo_path dir url)) tr)
      as [[b o] t].
    destruct b; simpl; [discriminate|].
    unfold emit.
    destruct (run_git_command_default proc (clone_command url (repo_path dir url))
                (t ++ [Rmtree (repo_path dir url)])%list) as [[b2 o2] t2].
    destruct b2; simpl; [discriminate|]. intros _. eauto.
  - destruct (run_git_command_default proc (clone_command url (repo_path dir url)) tr)
      as [[b o] t].
    destruct b; simpl; [discriminate|]. intros _. eauto.
Qed.

Definition failure_detail_ok (p : string * string) : Prop :=
  exists o, snd p = "Failed to clone: " ++ o \/ snd p = "Failed to re-clone: " ++ o.

Lemma backup_loop_effects dir repos succ fail tr succ' fail' tr' :
  backup_loop proc path_exists dir repos succ fail tr = ((succ', fail'), tr') ->
  Forall failure_detail_ok fail ->
  Forall failure_detail_ok fail' /\
  exists new, tr' = (tr ++ new)%list /\
    (spawn_count new <= 6 * length repos)%nat /\
    (length (filter is_rmtree new) <= length repos)%nat.
Proof.
  revert succ fail tr.
  induction repos as [|r rs IH]; intros succ fail tr H Hf; simpl in H.
  - unfold ret in H. injection H as <- <- <-.
    split; [exact Hf|]. exists []. rewrite app_nil_r. simpl. auto.
  - unfold bind in H.
    destruct (backup_repository_effects (clone_url r) dir tr) as [n1 [H1 [_ [C1 R1]]]].
    pose proof (backup_repository_failure_prefix (clone_url r) dir tr) as HP.
    destruct (backup_repository proc path_exists (clone_url r) dir tr) as [[b o] t].
    simpl in H1, HP. subst t.
    destruct b; simpl in H.
    + destruct (IH _ _ _ H Hf) as [Hf' [n2 [H2 [C2 R2]]]].
      split; [exact Hf'|]. exists (n1 ++ n2)%list.
      rewrite H2, <- app_assoc, spawn_count_app, rmtree_count_app.
      split; [reflexivity|]. simpl. lia.
    + destruct (HP eq_refl) as [o' Ho].
      assert (Hf1 : Forall failure_detail_ok (fail ++ [(name r, o)])%list).
      { apply Forall_app. split; [exact Hf|]. constructor; [exists o'; exact Ho | constructor]. }
      destruct (IH _ _ _ H Hf1) as [Hf' [n2 [H2 [C2 R2]]]].
      split; [exact Hf'|]. exists (n1 ++ n2)%list.
      rewrite H2, <- app_assoc, spawn_count_app, rmtree_count_app.
      split; [reflexivity|]. simpl. lia.
Qed.

End Extra2.

Lemma spawn_count_le_length (l : trace) : (spawn_count l <= length l)%nat.
Proof. induction l as [|[] l IH]; simpl; lia. Qed.

Section Extra3.

Variable proc : trace -> command -> proc_result.
Variable path_exists : trace -> string -> bool.

Lemma main_some_inv dir repos now tr m tr' :
  main proc path_exists dir repos now tr = (Some m, tr') ->
  exists new0 t1 s f t2,
    tr' = (t2 ++ [Persist (metadata_file dir) m])%list /\
    t1 = (tr ++ new0)%list /\ (length new0 <= 12)%nat /\
    length (filter is_rmtree new0) = 0%nat /\
    m = mk_metadata now s f (Z.of_nat (length repos)) (Z.of_nat (length s))
                    (Z.of_nat (length f)) /\
    ((repos = [] /\ s = [] /\ f = [] /\ t2 = t1) \/
     backup_loop proc path_exists dir repos [] [] t1 = ((s, f), t2)).
Proof.
  unfold main, bind, configure_git.
  destruct (configure_git_loop_effects proc git_configs tr) as [new0 [H0 [L0 F0]]].
  assert (R0 : length (filter is_rmtree new0) = 0%nat).
  { clear -F0. induction F0 as [|e l [kv [_ ->]] _ IH]; [reflexivity | exact IH]. }
  destruct (configure_git_loop proc git_configs tr) as [ok t1].
  simpl in H0. subst t1.
  destruct ok; simpl; [|discriminate].
  destruct repos as [|r rs].
  - intros H. injection H as <- <-.
    exists new0, (tr ++ new0)%list, [], [], (tr ++ new0)%list.
    repeat split; auto.
  - destruct (backup_loop proc path_exists dir (r :: rs) [] [] (tr ++ new0)%list)
      as [[s f] t2] eqn:E.
    intros H. injection H as <- <-.
    exists new0, (tr ++ new0)%list, s, f, t2. repeat split; auto.
Qed.

(** X8: every failure recorded in the summary [main] writes carries the
    detail ["Failed to clone: ..."] or ["Failed to re-clone: ..."]. *)
Theorem main_failure_details (dir : string) (repos : list repo) (now : string)
    (tr : trace) (m : metadata) (tr' : trace) :
  main proc path_exists dir repos now tr = (Some m, tr') ->
  Forall failure_detail_ok (failed_repos m).
Proof.
  intros H. apply main_some_inv in H.
  destruct H as [new0 [t1 [s [f [t2 [_ [_ [_ [_ [-> Hcase]]]]]]]]]]. simpl.
  destruct Hcase as [[_ [_ [-> _]]] | E]; [constructor|].
  apply backup_loop_effects in E; [apply E | constructor].
Qed.

(** X9: a run of [main] that writes its summary spawns at most
    [12 + 6 * len(repos)] processes (the git settings, then at most 3 pull
    and 3 clone attempts per repository), removes at most one directory per
    repository, and writes the summary as its last effect. *)
Theorem main_effect_bounds (dir : string) (repos : list repo) (now : string)
    (tr : trace) (m : metadata) (tr' : trace) :
  main proc path_exists dir repos now tr = (Some m, tr') ->
  exists new,
    tr' = (tr ++ new ++ [Persist (metadata_file dir) m])%list /\
    (spawn_count new <= 12 + 6 * length repos)%nat /\
    (length (filter is_rmtree new) <= length repos)%nat.
Proof.
  intros H. apply main_some_inv in H.
  destruct H as [new0 [t1 [s [f [t2 [-> [-> [L0 [R0 [-> Hcase]]]]]]]]]].
  destruct Hcase as [[-> [_ [_ ->]]] | E].
  - exists new0. split; [now rewrite <- app_assoc|].
    pose proof (spawn_count_le_length new0). simpl. lia.
  - apply backup_loop_effects in E; [|constructor].
    destruct E as [_ [n2 [-> [C2 R2]]]].
    exists (new0 ++ n2)%list. split; [now rewrite <- !app_assoc|].
    pose proof (spawn_count_le_length new0).
    rewrite spawn_count_app, rmtree_count_app. lia.
Qed.

(** X7: when one of [configure_git]'s [git config] invocations raises an
    exception other than [CalledProcessError] (e.g. git is not installed),
    [main] ends there: no summary is written and no repository is touched;
    its only effects are [git config] invocations. *)
Theorem main_aborts_when_configure_git_raises (dir : string) (repos : list repo)
    (now : string) (tr : trace) :
  fst (configure_git proc tr) = false ->
  exists new,
    main proc path_exists dir repos now tr = (None, (tr ++ new)%list) /\
    Forall (fun e => exists kv, In kv git_configs /\ e = Spawn (config_command kv)) new.
Proof.
  intros Hf. unfold main, bind.
  unfold configure_git in *.
  destruct (configure_git_loop_effects proc git_configs tr) as [new [Hs [_ Hall]]].
  destruct (configure_git_loop proc git_configs tr) as [ok t1].
  simpl in Hf, Hs. subst ok t1.
  exists new. split; [reflexivity | exact Hall].
Qed.

(** X6: a [CalledProcessError] on one git setting does not stop
    [configure_git]: unless some invocation raises another exception, all
    twelve settings are applied, in order, and [configure_git] completes. *)
Theorem configure_git_applies_every_setting (tr : trace) :
  (forall h kv msg, In kv git_configs -> proc h (config_command kv) <> ProcExc msg) ->
  configure_git proc tr
  = (true, (tr ++ map (fun kv => Spawn (config_command kv)) git_configs)%list).
Proof. intros H. unfold configure_git. apply configure_git_loop_no_exc. exact H. Qed.

(** X5: when the clone URL ends in ['/'], the mirror path is the backup
    directory itself ([os.path.join(backup_dir, "")]); if that directory
    exists and the pull there fails, [backup_repository] removes the whole
    backup directory. *)
Theorem backup_repository_trailing_slash_removes_backup_dir (u dir : string)
    (tr : trace) (o1 : string) (tr1 : trace) :
  path_exists tr (path_join dir "") = true ->
  run_git_command_default proc (pull_command (path_join dir "")) tr = ((false, o1), tr1) ->
  repo_path dir (u ++ "/") = path_join dir "" /\
  exists rest,
    snd (backup_repository proc path_exists (u ++ "/") dir tr)
    = (tr1 ++ Rmtree (path_join dir "") :: rest)%list.
Proof.
  intros He Hpull.
  assert (Hp : repo_path dir (u ++ "/") = path_join dir "").
  { unfold repo_path, last_component.
    change "/" with (String "/" EmptyString).
    rewrite last_component_acc_after_slash. reflexivity. }
  split; [exact Hp|].
  unfold backup_repository, bind, exists_path. rewrite Hp, He, Hpull. simpl.
  unfold emit.
  destruct (run_git_command_default_extends proc
              (clone_command (u ++ "/") (path_join dir ""))
              (tr1 ++ [Rmtree (path_join dir "")])%list) as [new [Hn _]].
  destruct (run_git_command_default proc (clone_command (u ++ "/") (path_join dir ""))
              (tr1 ++ [Rmtree (path_join dir "")])%list) as [[b o] t].
  simpl in Hn. subst t. exists (Spawn (clone_command (u ++ "/") (path_join dir "")) :: new).
  destruct b; simpl; now rewrite <- app_assoc.
Qed.

End Extra3.

(** ** The confirmation prompt *)

(** X10: the answer of the confirmation loop is decided by the first input
    line that reads ["y"] or ["n"] once stripped of surrounding white space
    and lower-cased (so [" Y "] is a yes); the lines before it are ignored
    and the loop asks again. *)
Theorem prompt_loop_first_valid_answer (bad : list string) (v : string)
    (rest : list string) (fuel : nat) :
  Forall (fun l => (String.eqb (normalise_answer l) "y" ||
                    String.eqb (normalise_answer l) "n") = false) bad ->
  (String.eqb (normalise_answer v) "y" || String.eqb (normalise_answer v) "n") = true ->
  (length bad < fuel)%nat ->
  prompt_loop fuel (bad ++ v :: rest) = Some (normalise_answer v).
Proof.
  intros Hbad Hv. revert fuel.
  induction Hbad as [|b bad Hb _ IH]; intros fuel Hf;
    (destruct fuel as [|fuel]; [simpl in Hf; lia|]).
  - simpl. rewrite Hv. reflexivity.
  - simpl. rewrite Hb. apply IH. simpl in Hf. lia.
Qed.

(** X11: when standard input ends before a line reading ["y"] or ["n"], the
    confirmation loop never ends: the [EOFError] handler sets
    [proceed = 'n'] without leaving the loop, so it runs out of any bound on
    its iterations. *)
Theorem prompt_loop_hangs_at_end_of_input (inputs : list string) (fuel : nat) :
  Forall (fun l => (String.eqb (normalise_answer l) "y" ||
                    String.eqb (normalise_answer l) "n") = false) inputs ->
  prompt_loop fuel inputs = None.
Proof.
  revert inputs. induction fuel as [|fuel IH]; intros inputs H; [reflexivity|].
  destruct inputs as [|l rest]; simpl.
  - apply IH. constructor.
  - inversion H as [|? ? Hl Hrest]; subst. rewrite Hl. apply IH. exact Hrest.
Qed.

(** ** [get_list_repos] *)

Section DiscoveryFacts.

Variable http : net -> string -> option response.

(** X12: without a non-empty [GITHUB_TOKEN], [get_list_repos] exits with
    status 1 before making any HTTP request. *)
Theorem get_list_repos_exits_without_token (username list_name : string)
    (token_env : option string) (parse : string -> list list_item)
    (inputs : list string) (fuel : nat) (st : net) :
  token_env = None \/ token_env = Some "" ->
  get_list_repos http username list_name token_env parse inputs fuel st = (LExit, st).
Proof. intros [-> | ->]; reflexivity. Qed.

(** X13: when the request for the list page raises or answers with an HTTP
    error status, [get_list_repos] returns the empty list after that single
    request: no repository is queried and no confirmation is asked. *)
Theorem get_list_repos_page_failure (username list_name : string)
    (token_env : option string) (parse : string -> list list_item)
    (inputs : list string) (fuel : nat) (st : net) :
  get_github_token token_env <> None ->
  (http st ("https://github.com/stars/" ++ username ++ "/lists/" ++ list_name) = None \/
   exists resp,
     http st ("https://github.com/stars/" ++ username ++ "/lists/" ++ list_name) = Some resp /\
     is_http_error (status_code resp) = true) ->
  get_list_repos http username list_name token_env parse inputs fuel st
  = (LRepos [], (st ++ [Get ("https://github.com/stars/" ++ username ++ "/lists/" ++ list_name)])%list).
Proof.
  intros Htok Hpage. unfold get_list_repos.
  destruct (get_github_token token_env) as [t|]; [|congruence].
  unfold http_get.
  destruct Hpage as [-> | [resp [-> He]]]; [reflexivity|]. rewrite He. reflexivity.
Qed.

(** X14: once [owner] has been assigned in some iteration, the item loop of
    [get_list_repos] never aborts: a failing item is skipped, and the loop
    returns the descriptors collected so far followed by the new ones. *)
Theorem items_loop_never_aborts_once_owner_bound (items : list list_item)
    (acc : list repo) (st : net) :
  exists more, fst (items_loop http true items acc st) = Some (acc ++ more)%list.
Proof.
  revert acc st. induction items as [|it rest IH]; intros acc st; simpl.
  - exists []. now rewrite app_nil_r.
  - destruct (process_item http it st) as [[out assigned] st1].
    destruct out as [|r|]; simpl.
    + apply IH.
    + destruct (IH (acc ++ [r])%list st1) as [more Hm]. rewrite Hm.
      exists (r :: more). now rewrite <- app_assoc.
    + apply IH.
Qed.

(** X15: when the first item of the list page has no [<h3>], or an [<a>] whose
    [href], stripped of ['/'], is non-empty and does not split into exactly
    [owner/repo], the [except] handler reads the still unassigned [owner]:
    [get_list_repos] raises instead of skipping the item. *)
Theorem get_list_repos_crashes_on_first_malformed_item (username list_name : string)
    (token_env : option string) (parse : string -> list list_item)
    (inputs : list string) (fuel : nat) (st : net) (resp : response)
    (it : list_item) (rest : list list_item) :
  get_github_token token_env <> None ->
  http st ("https://github.com/stars/" ++ username ++ "/lists/" ++ list_name) = Some resp ->
  is_http_error (status_code resp) = false ->
  parse (resp_text resp) = it :: rest ->
  (it = None \/
   exists a h, it = Some (Some a) /\ a_href a = Some h /\
     strip_by (fun c => Ascii.eqb c "/"%char) h <> "" /\
     length (split_slash (strip_by (fun c => Ascii.eqb c "/"%char) h)) <> 2%nat) ->
  fst (get_list_repos http username list_name token_env parse inputs fuel st) = LCrash.
Proof.
  intros Htok Hpage Hok Hparse Hit. unfold get_list_repos.
  destruct (get_github_token token_env) as [t|]; [|congruence].
  unfold http_get. rewrite Hpage, Hok, Hparse.
  destruct Hit as [-> | [a [h [-> [Hh [Hne Hsplit]]]]]]; [reflexivity|].
  simpl. rewrite Hh.
  apply String.eqb_neq in Hne. rewrite Hne.
  destruct (split_slash (strip_by (fun c => Ascii.eqb c "/"%char) h))
    as [|x [|y [|z l]]]; simpl in Hsplit; try lia; reflexivity.
Qed.

End DiscoveryFacts.


Section DiscoveryFacts2.

Variable http : net -> string -> option response.

(** X16: one item of the list page makes no request, one API request, or
    two requests to the same URL, the second only after a 60-second wait
    and only when the first answered 403 with "rate limit exceeded". A
    one-second wait ends the item exactly when it is collected; an item
    that makes no request is not collected. *)
Theorem process_item_requests (it : list_item) (st : net) :
  (snd (process_item http it st) = st /\
   is_collected (fst (fst (process_item http it st))) = false) \/
  exists u,
    snd (process_item http it st)
    = (st ++ Get u :: (if is_collected (fst (fst (process_item http it st)))
                       then [Wait 1] else []))%list \/
    (snd (process_item http it st)
     = (st ++ Get u :: Wait 60 :: Get u ::
           (if is_collected (fst (fst (process_item http it st)))
            then [Wait 1] else []))%list /\
     exists resp, http st u = Some resp /\ status_code resp = 403 /\
                  contains "rate limit exceeded" (resp_text resp) = true).
Proof.
  unfold process_item, http_get.
  destruct it as [[a|]|]; [|left; split; reflexivity..].
  match goal with |- context [String.eqb ?x ""] => destruct (String.eqb x "") end;
    [left; split; reflexivity|].
  match goal with |- context [split_slash ?x] => destruct (split_slash x) as [|o [|r [|z l]]] end;
    try (left; split; reflexivity).
  set (u := ("https://api.github.com/repos/" ++ o ++ "/" ++ r)%string).
  destruct (http st u) as [resp|] eqn:H1.
  2: { right. exists u. left. reflexivity. }
  destruct ((status_code resp =? 403) && contains "rate limit exceeded" (resp_text resp))
    eqn:Hrl.
  - apply andb_true_iff in Hrl. destruct Hrl as [H403 Hc]. apply Z.eqb_eq in H403.
    assert (Hr : exists resp0, http st u = Some resp0 /\ status_code resp0 = 403 /\
                 contains "rate limit exceeded" (resp_text resp0) = true) by eauto.
    cbv beta iota.
    destruct (http ((st ++ [Get u]) ++ [Wait 60])%list u) as [resp2|]; cbv beta iota;
      [|right; exists u; right; split; [simpl; rewrite <- ?app_assoc; reflexivity | exact Hr]].
    destruct (is_http_error (status_code resp2)); cbv beta iota;
      [right; exists u; right; split; [simpl; rewrite <- ?app_assoc; reflexivity | exact Hr]|].
    destruct (resp_json resp2) as [d|]; cbv beta iota;
      [|right; exists u; right; split; [simpl; rewrite <- ?app_assoc; reflexivity | exact Hr]].
    destruct (d_full_name d), (d_name d), (d_clone_url d); cbv beta iota;
      (right; exists u; right; split; [simpl; rewrite <- ?app_assoc; reflexivity | exact Hr]).
  - cbv beta iota.
    destruct (is_http_error (status_code resp)); cbv beta iota;
      [right; exists u; left; reflexivity|].
    destruct (resp_json resp) as [d|]; cbv beta iota;
      [|right; exists u; left; reflexivity].
    destruct (d_full_name d), (d_name d), (d_clone_url d); cbv beta iota;
      right; exists u; left; simpl; rewrite <- ?app_assoc; reflexivity.
Qed.

End DiscoveryFacts2.

Ltac nope := let Hr := fresh in intros Hr; cbv beta iota in Hr; simpl in Hr; discriminate Hr.

Lemma process_item_collected_api (http : net -> string -> option response)
    (it : list_item) (st : net) (r : repo) :
  fst (fst (process_item http it st)) = IRepo r -> api_descriptor http r.
Proof.
  unfold process_item, http_get.
  destruct it as [[a|]|]; try nope.
  match goal with |- context [String.eqb ?x ""] => destruct (String.eqb x "") end;
    [nope|].
  match goal with |- context [split_slash ?x] => destruct (split_slash x) as [|o [|n [|z l]]] end;
    try nope.
  set (u := ("https://api.github.com/repos/" ++ o ++ "/" ++ n)%string).
  destruct (http st u) as [resp|] eqn:H1; [|nope].
  destruct ((status_code resp =? 403) && contains "rate limit exceeded" (resp_text resp));
    cbv beta iota.
  - destruct (http ((st ++ [Get u]) ++ [Wait 60])%list u) as [resp2|] eqn:H2; [|nope].
    destruct (is_http_error (status_code resp2)) eqn:He; [nope|].
    destruct (resp_json resp2) as [d|] eqn:Hj; [|nope].
    destruct (d_full_name d) eqn:Hf, (d_name d) eqn:Hn, (d_clone_url d) eqn:Hu;
      try nope.
    intros Hr. injection Hr as <-.
    exists ((st ++ [Get u]) ++ [Wait 60])%list, o, n, resp2, d.
    simpl. rewrite Hf. repeat split; auto; discriminate.
  - destruct (is_http_error (status_code resp)) eqn:He; [nope|].
    destruct (resp_json resp) as [d|] eqn:Hj; [|nope].
    destruct (d_full_name d) eqn:Hf, (d_name d) eqn:Hn, (d_clone_url d) eqn:Hu;
      try nope.
    intros Hr. injection Hr as <-.
    exists st, o, n, resp, d. simpl. rewrite Hf. repeat split; auto; discriminate.
Qed.

Lemma items_loop_api (http : net -> string -> option response) b items acc st rs :
  fst (items_loop http b items acc st) = Some rs ->
  Forall (api_descriptor http) acc ->
  Forall (api_descriptor http) rs.
Proof.
  revert b acc st. induction items as [|it rest IH]; intros b acc st H Hacc; simpl in H.
  - injection H as <-. exact Hacc.
  - pose proof (process_item_collected_api http it st) as Hsz.
    destruct (process_item http it st) as [[out assigned] st1].
    simpl in Hsz. destruct out as [|r|].
    + eapply IH; eauto.
    + eapply IH; [exact H|]. apply Forall_app. split; [exact Hacc|].
      constructor; [apply Hsz; reflexivity | constructor].
    + destruct (b || assigned); [eapply IH; eauto | discriminate].
Qed.

(** X17: when [get_list_repos] returns a non-empty list, the operator answered
    ["y"] at the confirmation prompt, and every descriptor was built from a
    successful GitHub API answer: its name and clone URL are the answer's,
    its size is the answer's [size] in KB (0 when absent) times 1024. *)
Theorem get_list_repos_nonempty_result (http : net -> string -> option response)
    (username list_name : string) (token_env : option string)
    (parse : string -> list list_item) (inputs : list string) (fuel : nat)
    (st : net) (rs : list repo) :
  fst (get_list_repos http username list_name token_env parse inputs fuel st) = LRepos rs ->
  rs <> [] ->
  prompt_loop fuel inputs = Some "y" /\ Forall (api_descriptor http) rs.
Proof.
  unfold get_list_repos.
  destruct (get_github_token token_env) as [t|]; [|discriminate].
  unfold http_get at 1.
  destruct (http st _) as [resp|]; [|simpl; intros H; injection H as <-; congruence].
  destruct (is_http_error (status_code resp)); [simpl; intros H; injection H as <-; congruence|].
  destruct (parse (resp_text resp)) as [|it rest];
    [simpl; intros H; injection H as <-; congruence|].
  pose proof (items_loop_api http false (it :: rest) []
                (st ++ [Get ("https://github.com/stars/" ++ username ++ "/lists/" ++ list_name)])%list)
    as Hapi.
  destruct (items_loop http false (it :: rest) []
              (st ++ [Get ("https://github.com/stars/" ++ username ++ "/lists/" ++ list_name)])%list)
    as [res st2].
  destruct res as [detailed|]; [|discriminate].
  destruct (prompt_loop fuel inputs) as [p|]; [|discriminate].
  destruct (String.eqb p "y") eqn:Ey; simpl; intros H; injection H as <-; [|congruence].
  intros _. apply String.eqb_eq in Ey. subst p. split; [reflexivity|].
  apply (Hapi detailed); [reflexivity | constructor].
Qed.

(** X18: the unit [format_size] prints: ["B"] below 1024 bytes, then ["KB"],
    ["MB"], ["GB"] below 1024^2, 1024^3, 1024^4 bytes, and ["TB"] from
    1024^4 bytes on. *)
Theorem format_size_unit_thresholds (s : Z) :
  format_size_unit s
  = if s <? 1024 then "B"
    else if s <? 1024 ^ 2 then "KB"
    else if s <? 1024 ^ 3 then "MB"
    else if s <? 1024 ^ 4 then "GB"
    else "TB".
Proof.
  unfold format_size_unit. simpl format_size_unit_loop.
  unfold Qle_bool, Qdiv, Qmult, Qinv. simpl.
  rewrite !Z.mul_1_r, !Z.leb_antisym, !negb_involutive. reflexivity.
Qed.

Lemma run_git_command_attempts_and_waits_witness :
  1 <= 3 /\
  exists k,
    (1 <= k <= Z.to_nat 3)%nat /\
    snd (run_git_command world_eof_then_fatal ["git"; "pull"] 3 5 [])
    = ([] ++ transient_schedule ["git"; "pull"] k 5)%list /\
    spawn_count (transient_schedule ["git"; "pull"] k 5) = k /\
    sleeps (transient_schedule ["git"; "pull"] k 5)
    = map (fun i => 5 * 2 ^ Z.of_nat i) (seq 0 (k - 1)).
Proof.
  split; [lia|].
  apply (run_git_command_attempts_and_waits world_eof_then_fatal ["git"; "pull"] 3 5 []).
  lia.
Defined.

Lemma run_git_command_no_attempts_witness :
  0 <= 0 /\
  run_git_command world_ok ["git"; "pull"] 0 5 [] = ((false, "Max retries reached"), []).
Proof.
  split; [lia|]. apply (run_git_command_no_attempts world_ok ["git"; "pull"] 0 5 []). lia.
Defined.

Lemma run_git_command_exception_not_retried_witness :
  world_nogit [] ["git"; "pull"] = ProcExc "[Errno 2] No such file or directory: 'git'" /\
  run_git_command world_nogit ["git"; "pull"] 3 5 []
  = ((false, "[Errno 2] No such file or directory: 'git'"), [Spawn ["git"; "pull"]]).
Proof.
  split; [reflexivity|].
  apply (run_git_command_exception_not_retried world_nogit ["git"; "pull"] 3 5 []
           "[Errno 2] No such file or directory: 'git'"); [lia | reflexivity].
Defined.

Lemma main_failure_details_witness :
  exists m tr',
    main world_pull_and_clone_fail disk_empty "/b"
         [mk_repo "r" "https://github.com/o/r.git" 0] "now" [] = (Some m, tr') /\
    failed_repos m <> [] /\
    Forall failure_detail_ok (failed_repos m).
Proof.
  let v := eval vm_compute in
    (main world_pull_and_clone_fail disk_empty "/b"
          [mk_repo "r" "https://github.com/o/r.git" 0] "now" []) in
  match v with
  | (Some ?m, ?t) =>
      exists m, t; split; [vm_compute; reflexivity|]; split; [discriminate|];
      apply (main_failure_details world_pull_and_clone_fail disk_empty "/b"
               [mk_repo "r" "https://github.com/o/r.git" 0] "now" [] m t);
      vm_compute; reflexivity
  end.
Defined.

Lemma main_effect_bounds_witness :
  exists m tr',
    main world_pull_and_clone_fail (disk_only "/b/r") "/b"
         [mk_repo "r" "https://github.com/o/r.git" 0] "now" [] = (Some m, tr') /\
    exists new,
      tr' = ([] ++ new ++ [Persist (metadata_file "/b") m])%list /\
      (spawn_count new <= 12 + 6 * 1)%nat /\
      (length (filter is_rmtree new) <= 1)%nat.
Proof.
  let v := eval vm_compute in
    (main world_pull_and_clone_fail (disk_only "/b/r") "/b"
          [mk_repo "r" "https://github.com/o/r.git" 0] "now" []) in
  match v with
  | (Some ?m, ?t) =>
      exists m, t; split; [vm_compute; reflexivity|];
      apply (main_effect_bounds world_pull_and_clone_fail (disk_only "/b/r") "/b"
               [mk_repo "r" "https://github.com/o/r.git" 0] "now" [] m t);
      vm_compute; reflexivity
  end.
Defined.

Lemma main_aborts_when_configure_git_raises_witness :
  fst (configure_git world_nogit []) = false /\
  exists new,
    main world_nogit disk_empty "/b" [mk_repo "r" "https://github.com/o/r.git" 0] "now" []
    = (None, ([] ++ new)%list) /\
    Forall (fun e => exists kv, In kv git_configs /\ e = Spawn (config_command kv)) new.
Proof.
  split; [reflexivity|].
  apply (main_aborts_when_configure_git_raises world_nogit disk_empty "/b"
           [mk_repo "r" "https://github.com/o/r.git" 0] "now" []).
  reflexivity.
Defined.

Lemma configure_git_applies_every_setting_witness :
  configure_git world_ok []
  = (true, ([] ++ map (fun kv => Spawn (config_command kv)) git_configs)%list).
Proof.
  apply (configure_git_applies_every_setting world_ok []).
  intros h kv msg _. discriminate.
Defined.

Lemma backup_repository_trailing_slash_removes_backup_dir_witness :
  exists o1 tr1,
    run_git_command_default world_pull_fails (pull_command (path_join "/b" "")) []
    = ((false, o1), tr1) /\
    repo_path "/b" ("https://x/a" ++ "/") = path_join "/b" "" /\
    exists rest,
      snd (backup_repository world_pull_fails (disk_only "/b/") ("https://x/a" ++ "/") "/b" [])
      = (tr1 ++ Rmtree (path_join "/b" "") :: rest)%list.
Proof.
  let v := eval vm_compute in
    (run_git_command_default world_pull_fails (pull_command (path_join "/b" "")) []) in
  match v with
  | ((_, ?o), ?t) =>
      exists o, t; split; [vm_compute; reflexivity|];
      apply (backup_repository_trailing_slash_removes_backup_dir world_pull_fails
               (disk_only "/b/") "https://x/a" "/b" [] o t); vm_compute; reflexivity
  end.
Defined.

Lemma prompt_loop_first_valid_answer_witness :
  prompt_loop 5 (["maybe"] ++ " Y " :: ["n"])%list = Some "y".
Proof.
  apply (prompt_loop_first_valid_answer ["maybe"] " Y " ["n"] 5).
  - constructor; [reflexivity | constructor].
  - reflexivity.
  - simpl. lia.
Defined.

Lemma prompt_loop_hangs_at_end_of_input_witness :
  prompt_loop 10 ["maybe"; ""] = None.
Proof.
  apply (prompt_loop_hangs_at_end_of_input ["maybe"; ""] 10).
  constructor; [reflexivity | constructor; [reflexivity | constructor]].
Defined.

Lemma get_list_repos_exits_without_token_witness :
  get_list_repos http_one_repo "u" "l" (Some "") parse_two ["y"] 3 [] = (LExit, []).
Proof.
  apply (get_list_repos_exits_without_token http_one_repo "u" "l" (Some "") parse_two ["y"] 3 []).
  right. reflexivity.
Defined.

Lemma get_list_repos_page_failure_witness :
  get_list_repos http_down "u" "l" (Some "t") parse_two ["y"] 3 []
  = (LRepos [], ([] ++ [Get ("https://github.com/stars/" ++ "u" ++ "/lists/" ++ "l")])%list).
Proof.
  apply (get_list_repos_page_failure http_down "u" "l" (Some "t") parse_two ["y"] 3 []).
  - discriminate.
  - left. reflexivity.
Defined.

Lemma get_list_repos_crashes_on_first_malformed_item_witness :
  fst (get_list_repos http_one_repo "u" "l" (Some "t") parse_malformed_first ["y"] 3 [])
  = LCrash.
Proof.
  apply (get_list_repos_crashes_on_first_malformed_item http_one_repo "u" "l" (Some "t")
           parse_malformed_first ["y"] 3 [] (mk_response 200 ""
             (Some (mk_api_details (Some "o/r") (Some "r")
                                   (Some "https://github.com/o/r.git") (Some 5))))
           (Some (Some (mk_a_tag (Some "/x/y/z"))))
           [Some (Some (mk_a_tag (Some "/o/r")))]).
  - discriminate.
  - reflexivity.
  - reflexivity.
  - reflexivity.
  - right. eexists. eexists. split; [reflexivity|]. split; [reflexivity|].
    split; [discriminate | discriminate].
Defined.

Lemma get_list_repos_nonempty_result_witness :
  prompt_loop 3 ["y"] = Some "y" /\
  Forall (api_descriptor http_one_repo) [mk_repo "r" "https://github.com/o/r.git" 5120].
Proof.
  apply (get_list_repos_nonempty_result http_one_repo "u" "l" (Some "t") parse_two ["y"] 3 []).
  - reflexivity.
  - discriminate.
Defined.
